(** * The editable table controller of [src/table.js]

    A shallow embedding of the [Table] class: the controller's fields, the
    part of the DOM it owns (the rows of the [<table>], their cells and the
    content of every cell), its public methods and its event listeners.

    Elements are objects with identity in JavaScript: a cell that was removed
    from its row is still reachable through [_selectedCell].  The embedding
    therefore keeps every [tr] and [td] in a store indexed by a node
    identifier, and the grid itself is the list of the identifiers of the
    rows attached to the table. *)

From Stdlib Require Import ZArith Lia.
From stdpp Require Import base option list gmap strings.

Local Open Scope Z_scope.
Local Set Warnings "-register-all".

(** ** CSS class names (the [CSS] constant) *)

Module CSS.
Definition table : string := "tc-table".
Definition inputField : string := "tc-table__inp".
Definition cell : string := "tc-table__cell".
Definition wrapper : string := "tc-table__wrap".
Definition area : string := "tc-table__area".
Definition highlight : string := "tc-table__highlight".
End CSS.

(** ** Elements built by [create] *)

(** The only attribute the controller ever sets is [contenteditable], whose
    value is a boolean. *)
Inductive Element : Type :=
  mkElement (tagName : string) (classList : list string)
            (attributes : list (string * bool)) (children : list Element).

Definition tagName (e : Element) : string :=
  match e with mkElement tg _ _ _ => tg end.
Definition classList (e : Element) : list string :=
  match e with mkElement _ cl _ _ => cl end.
Definition attributes (e : Element) : list (string * bool) :=
  match e with mkElement _ _ at_ _ => at_ end.
Definition children (e : Element) : list Element :=
  match e with mkElement _ _ _ ch => ch end.

(** [DOMTokenList]: [contains], [add] (no duplicate is added) and [remove]. *)
Definition contains (cl : list string) (c : string) : bool :=
  bool_decide (c ∈ cl).
Definition classList_add (c : string) (cl : list string) : list string :=
  if contains cl c then cl else (cl ++ [c])%list.
Definition classList_remove (c : string) (cl : list string) : list string :=
  filter (λ x, x ≠ c) cl.

Definition add_class (c : string) (e : Element) : Element :=
  mkElement (tagName e) (classList_add c (classList e)) (attributes e) (children e).
Definition remove_class (c : string) (e : Element) : Element :=
  mkElement (tagName e) (classList_remove c (classList e)) (attributes e) (children e).
Definition appendChild (child : Element) (e : Element) : Element :=
  mkElement (tagName e) (classList e) (attributes e) (children e ++ [child])%list.

(** Modelled from the spec: the DOM factory [create] of [documentUtils],
    which is imported by [table.js] but is not part of the sources; the spec
    gives its contract as
    [create(tagName, classList, attributes?, children?) -> Element]. *)
Definition create (tag : string) (classes : list string)
    (attrs : list (string * bool)) (kids : list Element) : Element :=
  mkElement tag classes attrs kids.

(** The element reached from [e] by following child indexes. *)
Fixpoint element_at (e : Element) (path : list nat) : option Element :=
  match path with
  | [] => Some e
  | i :: path' =>
      match (children e !! i)%stdpp with
      | Some e' => element_at e' path'
      | None => None
      end
  end.

(** [querySelector('.' + c)]: the first descendant, in document order, that
    carries class [c]; the result is its path below [e]. *)
Fixpoint querySelector (c : string) (e : Element) : option (list nat) :=
  match e with
  | mkElement _ _ _ kids =>
      (fix scan (i : nat) (es : list Element) : option (list nat) :=
         match es with
         | [] => None
         | e' :: es' =>
             if contains (classList e') c then Some [i]
             else match querySelector c e' with
                  | Some p => Some (i :: p)
                  | None => scan (S i) es'
                  end
         end) 0%nat kids
  end.

(** ** Exceptions and events *)

Inductive Exception := IndexSizeError | TypeError | ReferenceError.

(** A node of the widget: an element inside a cell (the [td] itself for the
    empty path), a row, the table or the wrapper around it. *)
Inductive Node :=
| InCell (td : nat) (path : list nat)
| RowTr (tr : nat)
| TableEl
| WrapperEl.

Inductive EventType := focus | blur | keydown | click.

Record Event := mkEvent {
  target : Node;
  key : string;
  ctrlKey : bool;
  shiftKey : bool
}.

Record CustomEvent := mkCustomEvent {
  ce_target : Node;
  ce_type : string;
  ce_detail_side : string;
  ce_bubbles : bool
}.

(** ** The controller and the DOM subtree it owns *)

Record Table := mkTable {
  readOnly : bool;
  _numberOfColumns : Z;
  _numberOfRows : Z;
  _selectedCell : option nat;
  (** [this._table.rows]: the rows attached to the table, in order *)
  table_rows : list nat;
  (** the [cells] collection of every [tr] created so far *)
  tr_cells : gmap nat (list nat);
  (** the parent row of every [td] that sits in a row *)
  td_parent : gmap nat nat;
  (** the [td] elements: classes and content *)
  td_element : gmap nat Element;
  (** the next unused node identifier *)
  next_node : nat;
  (** bindings of the global object that the module can see *)
  globalThis : gmap string string;
  (** what was handed to the host: dispatched custom events, and the
      exceptions that escaped from a listener *)
  notifications : list CustomEvent;
  reported : list Exception
}.

Definition set_numberOfColumns (n : Z) (t : Table) : Table :=
  mkTable (readOnly t) n (_numberOfRows t) (_selectedCell t) (table_rows t)
    (tr_cells t) (td_parent t) (td_element t) (next_node t) (globalThis t)
    (notifications t) (reported t).
Definition set_numberOfRows (n : Z) (t : Table) : Table :=
  mkTable (readOnly t) (_numberOfColumns t) n (_selectedCell t) (table_rows t)
    (tr_cells t) (td_parent t) (td_element t) (next_node t) (globalThis t)
    (notifications t) (reported t).
Definition set__selectedCell (c : option nat) (t : Table) : Table :=
  mkTable (readOnly t) (_numberOfColumns t) (_numberOfRows t) c (table_rows t)
    (tr_cells t) (td_parent t) (td_element t) (next_node t) (globalThis t)
    (notifications t) (reported t).
Definition set_table_rows (rs : list nat) (t : Table) : Table :=
  mkTable (readOnly t) (_numberOfColumns t) (_numberOfRows t) (_selectedCell t) rs
    (tr_cells t) (td_parent t) (td_element t) (next_node t) (globalThis t)
    (notifications t) (reported t).
Definition set_tr_cells (m : gmap nat (list nat)) (t : Table) : Table :=
  mkTable (readOnly t) (_numberOfColumns t) (_numberOfRows t) (_selectedCell t)
    (table_rows t) m (td_parent t) (td_element t) (next_node t) (globalThis t)
    (notifications t) (reported t).
Definition set_td_parent (m : gmap nat nat) (t : Table) : Table :=
  mkTable (readOnly t) (_numberOfColumns t) (_numberOfRows t) (_selectedCell t)
    (table_rows t) (tr_cells t) m (td_element t) (next_node t) (globalThis t)
    (notifications t) (reported t).
Definition set_td_element (m : gmap nat Element) (t : Table) : Table :=
  mkTable (readOnly t) (_numberOfColumns t) (_numberOfRows t) (_selectedCell t)
    (table_rows t) (tr_cells t) (td_parent t) m (next_node t) (globalThis t)
    (notifications t) (reported t).
Definition set_next_node (n : nat) (t : Table) : Table :=
  mkTable (readOnly t) (_numberOfColumns t) (_numberOfRows t) (_selectedCell t)
    (table_rows t) (tr_cells t) (td_parent t) (td_element t) n (globalThis t)
    (notifications t) (reported t).
Definition set_notifications (l : list CustomEvent) (t : Table) : Table :=
  mkTable (readOnly t) (_numberOfColumns t) (_numberOfRows t) (_selectedCell t)
    (table_rows t) (tr_cells t) (td_parent t) (td_element t) (next_node t)
    (globalThis t) l (reported t).
Definition set_reported (l : list Exception) (t : Table) : Table :=
  mkTable (readOnly t) (_numberOfColumns t) (_numberOfRows t) (_selectedCell t)
    (table_rows t) (tr_cells t) (td_parent t) (td_element t) (next_node t)
    (globalThis t) (notifications t) l.

(** ** Statements that change the controller and may throw *)

Inductive Completion (A : Type) :=
| Normal (a : A)
| Throw (e : Exception).
Arguments Normal {A} a.
Arguments Throw {A} e.

(** A statement runs on the controller and leaves it changed, also when it
    throws. *)
Definition JS (A : Type) : Type := Table → Table * Completion A.

Definition ret {A} (a : A) : JS A := λ t, (t, Normal a).
Definition throw {A} (e : Exception) : JS A := λ t, (t, Throw e).
Definition bind {A B} (m : JS A) (k : A → JS B) : JS B :=
  λ t, match m t with
       | (t1, Normal a) => k a t1
       | (t1, Throw e) => (t1, Throw e)
       end.
Definition get {A} (f : Table → A) : JS A := λ t, (t, Normal (f t)).
Definition modify (f : Table → Table) : JS unit := λ t, (f t, Normal tt).

Declare Scope js_scope.
Delimit Scope js_scope with js.
Notation "x <- m ;; k" := (bind m (λ x, k))
  (at level 100, m at next level, right associativity) : js_scope.
Notation "m ;; k" := (bind m (λ _, k))
  (at level 100, right associativity) : js_scope.
Local Open Scope js_scope.

(** [for (let i = lo; i < lo + n; i++) body(i)]; an exception leaves the loop. *)
Fixpoint for_loop (n : nat) (lo : nat) (body : nat → JS unit) : JS unit :=
  match n with
  | O => ret tt
  | S n' => body lo ;; for_loop n' (S lo) body
  end.

(** ** The DOM interface of tables that the controller calls

    [insertRow], [deleteRow], [insertCell], [deleteCell], [rowIndex] and
    [cellIndex] follow the HTML Standard: index [-1] means the end, an index
    out of range throws [IndexSizeError], and the index of an element that is
    not in a row (or a table) is [-1]. *)

Fixpoint index_of (x : nat) (l : list nat) : option nat :=
  match l with
  | [] => None
  | y :: l' => if decide (x = y) then Some 0%nat else S <$> index_of x l'
  end.

Definition index_or_minus_one (o : option nat) : Z :=
  match o with
  | Some i => Z.of_nat i
  | None => -1
  end.

Definition insert_at {A} (pos : nat) (x : A) (l : list A) : list A :=
  (take pos l ++ x :: drop pos l)%list.

(** [tr.cells] *)
Definition cells (t : Table) (tr : nat) : list nat :=
  default [] (tr_cells t !! tr).

(** [tr.rowIndex] *)
Definition rowIndex (t : Table) (tr : nat) : Z :=
  index_or_minus_one (index_of tr (table_rows t)).

(** [td.cellIndex] *)
Definition cellIndex (t : Table) (td : nat) : Z :=
  match td_parent t !! td with
  | Some tr => index_or_minus_one (index_of td (cells t tr))
  | None => -1
  end.

(** [td.closest('tr')] *)
Definition closest_tr (t : Table) (td : nat) : option nat :=
  td_parent t !! td.

(** The position that a DOM index denotes in a collection of [n] items. *)
Definition position (n : nat) (index : Z) : nat :=
  if decide (index = -1) then n else Z.to_nat index.

Definition HTMLTableElement_insertRow (index : Z) : JS nat := λ t,
  let n := length (table_rows t) in
  if decide (index < -1 ∨ Z.of_nat n < index) then (t, Throw IndexSizeError)
  else
    let tr := next_node t in
    (set_next_node (S tr)
       (set_tr_cells (<[tr := []]> (tr_cells t))
          (set_table_rows (insert_at (position n index) tr (table_rows t)) t)),
     Normal tr).

Definition HTMLTableElement_deleteRow (index : Z) : JS unit := λ t,
  let n := length (table_rows t) in
  if decide (index < -1 ∨ Z.of_nat n ≤ index) then (t, Throw IndexSizeError)
  else
    (set_table_rows (delete (position (pred n) index) (table_rows t)) t,
     Normal tt).

Definition HTMLTableRowElement_insertCell (tr : nat) (index : Z) : JS nat := λ t,
  let cs := cells t tr in
  let n := length cs in
  if decide (index < -1 ∨ Z.of_nat n < index) then (t, Throw IndexSizeError)
  else
    let td := next_node t in
    (set_next_node (S td)
       (set_td_element (<[td := mkElement "td" [] [] []]> (td_element t))
          (set_td_parent (<[td := tr]> (td_parent t))
             (set_tr_cells (<[tr := insert_at (position n index) td cs]> (tr_cells t)) t))),
     Normal td).

Definition HTMLTableRowElement_deleteCell (tr : nat) (index : Z) : JS unit := λ t,
  let cs := cells t tr in
  let n := length cs in
  if decide (index < -1 ∨ Z.of_nat n ≤ index) then (t, Throw IndexSizeError)
  else
    let pos := position (pred n) index in
    match (cs !! pos)%stdpp with
    | Some td =>
        (set_td_parent (delete td (td_parent t))
           (set_tr_cells (<[tr := delete pos cs]> (tr_cells t)) t),
         Normal tt)
    | None => (t, Normal tt)
    end.

(** [td.classList.add(c)] and [td.classList.remove(c)], and
    [td.appendChild(child)], on a cell of the store. *)
Definition alter_td (f : Element → Element) (td : nat) (t : Table) : Table :=
  set_td_element (alter f td (td_element t)) t.

(** ** The controller *)

Definition Table_new (globals : gmap string string) (readOnly : bool) : Table :=
  mkTable readOnly 0 0 None [] ∅ ∅ ∅ 0%nat globals [] [].

(** [get selectedCell] *)
Definition selectedCell (t : Table) : option nat := _selectedCell t.

(** [set selectedCell(cell)] *)
Definition set_selectedCell (cell : option nat) : JS unit :=
  old <- get _selectedCell ;;
  match old with
  | Some c => modify (alter_td (remove_class CSS.highlight) c)
  | None => ret tt
  end ;;
  modify (set__selectedCell cell) ;;
  new <- get _selectedCell ;;
  match new with
  | Some c => modify (alter_td (add_class CSS.highlight) c)
  | None => ret tt
  end.

(** [get selectedRow] *)
Definition selectedRow (t : Table) : option nat :=
  match selectedCell t with
  | None => None
  | Some c => closest_tr t c
  end.

Definition _createTableWrapper : Element :=
  create "div" [CSS.wrapper] [] [create "table" [CSS.table] [] []].

Definition _createContenteditableArea : JS Element :=
  ro <- get readOnly ;;
  ret (create "div" [CSS.inputField] [("contenteditable"%string, negb ro)] []).

Definition _fillCell (cell : nat) : JS unit :=
  modify (alter_td (add_class CSS.cell) cell) ;;
  content <- _createContenteditableArea ;;
  modify (alter_td (appendChild (create "div" [CSS.area] [] [content])) cell).

(** The loop bound [this._numberOfColumns] is not changed by the body. *)
Definition _fillRow (row : nat) : JS unit :=
  n <- get _numberOfColumns ;;
  for_loop (Z.to_nat n) 0 (λ _,
    cell <- HTMLTableRowElement_insertCell row (-1) ;;
    _fillCell cell).

(** [Math.min(Math.max(direction, 0), 1)] *)
Definition clamp (direction : Z) : Z := Z.min (Z.max direction 0) 1.

(** [rows[i]]; a method call on a missing item throws [TypeError]. *)
Definition rows_item (i : nat) : JS nat := λ t,
  match (table_rows t !! i)%stdpp with
  | Some tr => (t, Normal tr)
  | None => (t, Throw TypeError)
  end.

(** [insertColumn(direction = 0)]; an omitted argument is [None].  The bound
    [rows.length] of the loop is not changed by the body. *)
Definition insertColumn (direction : option Z) : JS unit :=
  let direction := clamp (default 0 direction) in
  insertionIndex <- get (λ t,
    match selectedCell t with
    | Some c => cellIndex t c + direction
    | None => 0
    end) ;;
  modify (λ t, set_numberOfColumns (_numberOfColumns t + 1) t) ;;
  len <- get (λ t, length (table_rows t)) ;;
  for_loop len 0 (λ i,
    row <- rows_item i ;;
    cell <- HTMLTableRowElement_insertCell row insertionIndex ;;
    _fillCell cell).

Definition deleteColumn : JS unit :=
  sel <- get selectedCell ;;
  match sel with
  | None => ret tt
  | Some c =>
      removalIndex <- get (λ t, cellIndex t c) ;;
      modify (λ t, set_numberOfColumns (_numberOfColumns t - 1) t) ;;
      len <- get (λ t, length (table_rows t)) ;;
      for_loop len 0 (λ i,
        row <- rows_item i ;;
        HTMLTableRowElement_deleteCell row removalIndex)
  end.

(** [insertRow(direction = 0)] *)
Definition insertRow (direction : option Z) : JS nat :=
  let direction := clamp (default 0 direction) in
  insertionIndex <- get (λ t,
    match selectedRow t with
    | Some r => rowIndex t r + direction
    | None => 0
    end) ;;
  row <- HTMLTableElement_insertRow insertionIndex ;;
  modify (λ t, set_numberOfRows (_numberOfRows t + 1) t) ;;
  _fillRow row ;;
  ret row.

(** [deleteRow(index = -1)] *)
Definition deleteRow (index : option Z) : JS unit :=
  let index := default (-1) index in
  sel <- get selectedRow ;;
  match sel with
  | None => ret tt
  | Some r =>
      removalIndex <- get (λ t, rowIndex t r) ;;
      HTMLTableElement_deleteRow removalIndex ;;
      modify (λ t, set_numberOfRows (_numberOfRows t - 1) t)
  end.


(** ** Events *)

(** The listeners are methods of the class. *)
Inductive Listener :=
| focusEditField
| blurEditField
| pressedEnterInEditField
| clickedOnCell
| containerKeydown.

(** [this._table] and [this.htmlElement], the two nodes that get listeners. *)
Inductive ListenerNode := on_table | on_htmlElement.

Record Registration := mkRegistration {
  reg_node : ListenerNode;
  reg_type : EventType;
  reg_capture : bool;
  reg_listener : Listener
}.

(** [_attachEvents()]: the [addEventListener] calls, in order. *)
Definition _attachEvents : list Registration :=
  [ mkRegistration on_table focus true focusEditField;
    mkRegistration on_table keydown false pressedEnterInEditField;
    mkRegistration on_table click false clickedOnCell;
    mkRegistration on_htmlElement keydown false containerKeydown ].

Global Instance EventType_eq_dec : EqDecision EventType.
Proof. solve_decision. Defined.
Global Instance ListenerNode_eq_dec : EqDecision ListenerNode.
Proof. solve_decision. Defined.
Global Instance Node_eq_dec : EqDecision Node.
Proof. solve_decision. Defined.

(** The classes of a node.  Rows carry none; the wrapper and the table carry
    the ones [_createTableWrapper] gives them. *)
Definition node_classList (t : Table) (n : Node) : list string :=
  match n with
  | InCell td path =>
      match td_element t !! td with
      | Some e =>
          match element_at e path with
          | Some e' => classList e'
          | None => []
          end
      | None => []
      end
  | RowTr _ => []
  | TableEl =>
      match children _createTableWrapper with
      | tbl :: _ => classList tbl
      | [] => []
      end
  | WrapperEl => classList _createTableWrapper
  end.

(** [node.getAttribute('contenteditable')] as a boolean; absent is false. *)
Definition node_contenteditable (t : Table) (n : Node) : bool :=
  match n with
  | InCell td path =>
      match td_element t !! td with
      | Some e =>
          match element_at e path with
          | Some e' =>
              bool_decide (("contenteditable"%string, true) ∈ attributes e')
          | None => false
          end
      | None => false
      end
  | _ => false
  end.

(** [node.closest('.' + CSS.cell)].  The class is only ever given to a [td]
    (by [_fillCell]), so the answer is the enclosing [td] when it carries the
    class, and [null] otherwise. *)
Definition closest_cell (t : Table) (n : Node) : option nat :=
  match n with
  | InCell td _ =>
      if contains (node_classList t (InCell td [])) CSS.cell then Some td
      else None
  | _ => None
  end.

(** Whether the table is on the propagation path of an event at [n]. *)
Definition inside_table (t : Table) (n : Node) : bool :=
  match n with
  | InCell td _ =>
      match td_parent t !! td with
      | Some tr => bool_decide (tr ∈ table_rows t)
      | None => false
      end
  | RowTr tr => bool_decide (tr ∈ table_rows t)
  | TableEl => true
  | WrapperEl => false
  end.

Definition bubbles (ty : EventType) : bool :=
  match ty with
  | focus | blur => false
  | keydown | click => true
  end.

(** [identifier]: reading a variable that the module does not declare looks
    it up on the global object and throws [ReferenceError] when absent. *)
Definition identifier (name : string) : JS string := λ t,
  match globalThis t !! name with
  | Some v => (t, Normal v)
  | None => (t, Throw ReferenceError)
  end.

(** [target.dispatchEvent(new CustomEvent(...))]: no listener of the
    controller is registered for a custom type; the event goes to the host. *)
Definition EventTarget_dispatchEvent (ce : CustomEvent) : JS unit :=
  modify (λ t, set_notifications (notifications t ++ [ce])%list t).

(** [event.preventDefault()] only cancels the browser's default action. *)
Definition Event_preventDefault (event : Event) : JS unit := ret tt.

Section Listeners.
(** How an event raised from inside a listener ([click()], [focus()]) is
    delivered. *)
Variable dispatch_nested : EventType → Event → Table → Table.

(** [node.click()] *)
Definition HTMLElement_click (n : Node) : JS unit :=
  modify (dispatch_nested click (mkEvent n "" false false)).

(** [node.focus()]: a node that can take focus gets it, with a [focus]
    event.  The node is assumed not to hold the focus already, and the page
    to be shown. *)
Definition HTMLElement_focus (n : Node) : JS unit := λ t,
  if node_contenteditable t n && inside_table t n
  then (dispatch_nested focus (mkEvent n "" false false) t, Normal tt)
  else (t, Normal tt).

Definition _focusEditField (event : Event) : JS unit :=
  cl <- get (λ t, node_classList t (target event)) ;;
  if negb (contains cl CSS.inputField) then ret tt
  else
    c <- get (λ t, closest_cell t (target event)) ;;
    modify (set__selectedCell c).

Definition _blurEditField (event : Event) : JS unit :=
  cl <- get (λ t, node_classList t (target event)) ;;
  if negb (contains cl CSS.inputField) then ret tt
  else modify (set__selectedCell None).

Definition _pressedEnterInEditField (event : Event) : JS unit :=
  cl <- get (λ t, node_classList t (target event)) ;;
  if negb (contains cl CSS.inputField) then ret tt
  else if bool_decide (key event = "Enter"%string) && negb (shiftKey event)
       then Event_preventDefault event
       else ret tt.

(** [event.target.querySelector(...)] is [null] when nothing matches, and
    [null.focus()] throws [TypeError]. *)
Definition _clickedOnCell (event : Event) : JS unit :=
  cl <- get (λ t, node_classList t (target event)) ;;
  if negb (contains cl CSS.cell) then ret tt
  else
    content <- get (λ t,
      match target event with
      | InCell td path =>
          match td_element t !! td with
          | Some e =>
              match element_at e path with
              | Some e' =>
                  match querySelector CSS.inputField e' with
                  | Some p => Some (InCell td (path ++ p)%list)
                  | None => None
                  end
              | None => None
              end
          | None => None
          end
      | _ => None
      end) ;;
    match content with
    | Some n => HTMLElement_focus n
    | None => throw TypeError
    end.

(** [newRow.cells[0]] is [undefined] for a row without cells, and
    [undefined.click()] throws [TypeError]; [side] is an identifier that no
    declaration of the module binds. *)
Definition _containerEnterPressed (event : Event) : JS unit :=
  newRow <- insertRow (Some 1) ;;
  first <- get (λ t, (cells t newRow !! 0%nat)%stdpp) ;;
  match first with
  | None => throw TypeError
  | Some c =>
      HTMLElement_click (InCell c []) ;;
      side <- identifier "side" ;;
      EventTarget_dispatchEvent
        (mkCustomEvent (target event) "mouseInActivatingArea" side true)
  end.

Definition _containerKeydown (event : Event) : JS unit :=
  if bool_decide (key event = "Enter"%string) && ctrlKey event
  then _containerEnterPressed event
  else ret tt.

Definition call_listener (l : Listener) (event : Event) : JS unit :=
  match l with
  | focusEditField => _focusEditField event
  | blurEditField => _blurEditField event
  | pressedEnterInEditField => _pressedEnterInEditField event
  | clickedOnCell => _clickedOnCell event
  | containerKeydown => _containerKeydown event
  end.

(** The listeners of [node] for events of type [ty] in the given phase. *)
Definition listeners (node : ListenerNode) (ty : EventType) (capture : bool)
    : list Listener :=
  reg_listener <$>
    filter (λ r, reg_node r = node ∧ reg_type r = ty ∧ reg_capture r = capture)
           _attachEvents.

(** An exception thrown by a listener does not stop the dispatch: it is
    reported to the host and the next listener runs. *)
Definition run_listeners (ls : list Listener) (event : Event) (t : Table)
    : Table :=
  foldl (λ t l,
           match call_listener l event t with
           | (t', Normal _) => t'
           | (t', Throw e) => set_reported (reported t' ++ [e])%list t'
           end) t ls.

(** One dispatch: the capturing listeners from the wrapper down to the
    table, then the others from the table up to the wrapper; the latter run
    on an ancestor of the target only for an event that bubbles. *)
Definition dispatch_step (ty : EventType) (event : Event) (t : Table) : Table :=
  let in_table := inside_table t (target event) in
  let in_wrapper := in_table || bool_decide (target event = WrapperEl) in
  let at_table := bool_decide (target event = TableEl) in
  let at_wrapper := bool_decide (target event = WrapperEl) in
  let t1 := if in_wrapper
            then run_listeners (listeners on_htmlElement ty true) event t
            else t in
  let t2 := if in_table
            then run_listeners (listeners on_table ty true) event t1
            else t1 in
  let t3 := if in_table && (bubbles ty || at_table)
            then run_listeners (listeners on_table ty false) event t2
            else t2 in
  if in_wrapper && (bubbles ty || at_wrapper)
  then run_listeners (listeners on_htmlElement ty false) event t3
  else t3.
End Listeners.

(** Dispatch with a bound on how deep listeners may raise further events. *)
Fixpoint dispatch_depth (n : nat) (ty : EventType) (event : Event) (t : Table)
    : Table :=
  match n with
  | O => t
  | S n' => dispatch_step (dispatch_depth n') ty event t
  end.

(** A key press raises at most a click, and a click at most a focus event. *)
Definition dispatchEvent : EventType → Event → Table → Table :=
  dispatch_depth 3.

(** ** Sequences of calls *)

Inductive Call :=
| call_insertRow (direction : option Z)
| call_deleteRow (index : option Z)
| call_insertColumn (direction : option Z)
| call_deleteColumn.

(** The controller after a call; the caller may catch what it throws. *)
Definition do_call (c : Call) (t : Table) : Table :=
  match c with
  | call_insertRow d => fst (insertRow d t)
  | call_deleteRow i => fst (deleteRow i t)
  | call_insertColumn d => fst (insertColumn d t)
  | call_deleteColumn => fst (deleteColumn t)
  end.


(** Everything a host can do to the controller: call a method, assign to
    [selectedCell], or let the browser deliver an event. *)
Inductive Step :=
| step_call (c : Call)
| step_set_selectedCell (cell : option nat)
| step_event (ty : EventType) (event : Event).

Definition do_step (s : Step) (t : Table) : Table :=
  match s with
  | step_call c => do_call c t
  | step_set_selectedCell cell => fst (set_selectedCell cell t)
  | step_event ty event => dispatchEvent ty event t
  end.

Definition do_steps (ss : list Step) (t : Table) : Table :=
  foldl (λ t s, do_step s t) t ss.

(** ** Vocabulary of the properties *)

(** The cell that [_fillCell] makes of a new [td]: tagged as a styled cell,
    holding one content container with one empty input area, which is
    editable unless the table is read-only. *)
Definition empty_cell (readOnly : bool) : Element :=
  mkElement "td" [CSS.cell] []
    [mkElement "div" [CSS.area] []
       [mkElement "div" [CSS.inputField]
          [("contenteditable"%string, negb readOnly)] []]].

(** The cells that carry the highlight marker, attached to the grid or not. *)
Definition highlighted (t : Table) : list nat :=
  (filter (λ ce, contains (classList ce.2) CSS.highlight = true)
          (map_to_list (td_element t))).*1.

(** Node identifiers are handed out in increasing order and a row is attached
    to the table at most once. *)
Definition wf (t : Table) : Prop :=
  NoDup (table_rows t) ∧
  Forall (λ r, (r < next_node t)%nat) (table_rows t) ∧
  map_Forall (λ _ cs, Forall (λ c, (c < next_node t)%nat) cs) (tr_cells t).

Global Instance wf_dec t : Decision (wf t).
Proof. unfold wf. apply _. Defined.

(** The fields of the controller that the DOM calls do not touch. *)
Definition same_controller (t t' : Table) : Prop :=
  readOnly t' = readOnly t ∧
  _numberOfColumns t' = _numberOfColumns t ∧
  _numberOfRows t' = _numberOfRows t ∧
  _selectedCell t' = _selectedCell t ∧
  globalThis t' = globalThis t ∧
  notifications t' = notifications t ∧
  reported t' = reported t.

(** Every row of the grid has exactly [_numberOfColumns] cells. *)
Definition uniform (t : Table) : Prop :=
  ∀ r, r ∈ table_rows t → Z.of_nat (length (cells t r)) = _numberOfColumns t.

(** A property of the controller that a statement keeps, however it ends. *)
Definition preserves {A} (P : Table → Prop) (m : JS A) : Prop :=
  ∀ t, P t → P (fst (m t)).

(** The controller after a new, filled cell was put in [row] at position
    [pos]: what one round of a filling loop does. *)
Definition with_new_cell (row : nat) (pos : nat) (t : Table) : Table :=
  mkTable (readOnly t) (_numberOfColumns t) (_numberOfRows t) (_selectedCell t)
    (table_rows t)
    (<[row := insert_at pos (next_node t) (cells t row)]> (tr_cells t))
    (<[next_node t := row]> (td_parent t))
    (<[next_node t := empty_cell (readOnly t)]> (td_element t))
    (S (next_node t)) (globalThis t) (notifications t) (reported t).

(** Where [insertRow] puts the new row: at the start without a selected row,
    else where the DOM index [selectedRow.rowIndex + direction] points, which
    is the end of the table for the index [-1]. *)
Definition insertRow_position (direction : option Z) (t : Table) : nat :=
  match selectedRow t with
  | Some r =>
      position (length (table_rows t))
               (rowIndex t r + clamp (default 0 direction))
  | None => 0%nat
  end.

(** The DOM index at which [insertColumn] inserts a cell in every row. *)
Definition insertColumn_index (direction : option Z) (t : Table) : Z :=
  match selectedCell t with
  | Some c => cellIndex t c + clamp (default 0 direction)
  | None => 0
  end.

(** A property of the controller that no DOM call and no assignment to a
    field breaks, except possibly handing a notification to the host; the
    notification of [_containerEnterPressed] is listed on its own. *)
Class Frame (P : Table → Prop) : Prop := {
  frame_insertRow_dom index : preserves P (HTMLTableElement_insertRow index);
  frame_deleteRow_dom index : preserves P (HTMLTableElement_deleteRow index);
  frame_insertCell_dom tr index :
    preserves P (HTMLTableRowElement_insertCell tr index);
  frame_deleteCell_dom tr index :
    preserves P (HTMLTableRowElement_deleteCell tr index);
  frame_alter_td f td t : P t → P (alter_td f td t);
  frame_set_numberOfColumns n t : P t → P (set_numberOfColumns n t);
  frame_set_numberOfRows n t : P t → P (set_numberOfRows n t);
  frame_set__selectedCell c t : P t → P (set__selectedCell c t);
  frame_set_reported l t : P t → P (set_reported l t);
  frame_notify (mk : string → CustomEvent) :
    preserves P (side <- identifier "side" ;; EventTarget_dispatchEvent (mk side))
}.

(** Nothing was handed to the host beyond [l], and the global object has no
    binding for [side]. *)
Definition quiet (l : list CustomEvent) (t : Table) : Prop :=
  notifications t = l ∧ globalThis t !! "side"%string = None.

(** ** The statements of the specification, as it words them *)



(** [deleteRow]: whatever the argument, the row that goes is the selected
    one, at its position in the grid. *)
Definition deleteRow_as_specified (index : option Z) (t : Table) : Prop :=
  deleteRow index t = deleteRow None t ∧
  match selectedRow t with
  | Some r =>
      ∃ i : nat,
        (table_rows t !! i)%stdpp = Some r ∧
        table_rows (fst (deleteRow index t)) = delete i (table_rows t)
  | None => True
  end.


(** ** Sample controllers *)

Definition plain_event (n : Node) : Event := mkEvent n "" false false.
Definition ctrl_enter (n : Node) : Event := mkEvent n "Enter" true false.

(** A grid made by [rows] calls of [insertRow()] and then [columns] calls of
    [insertColumn()] on a new controller that is not read-only. *)
Definition grid (rows columns : nat) : list Step :=
  (replicate rows (step_call (call_insertRow None)) ++
   replicate columns (step_call (call_insertColumn None)))%list.

(** Two rows of two cells, nothing selected: rows [1] and [0], holding the
    cells [4; 2] and [5; 3]. *)
Definition grid_2x2 : Table := do_steps (grid 2 2) (Table_new ∅ false).

(** One row of one cell (cell [1] in row [0]), with the focus in its input. *)
Definition grid_1x1_focused : Table :=
  do_steps (grid 1 1 ++ [step_event focus (plain_event (InCell 1 [0; 0]%nat))])
           (Table_new ∅ false).

(** Two rows of one cell; the cell of the first row took the focus and its
    row was deleted: the selection is a cell of a row outside the grid. *)
Definition grid_2x1_row_deleted : Table :=
  do_steps (grid 2 1 ++
            [step_event focus (plain_event (InCell 2 [0; 0]%nat));
             step_call (call_deleteRow None)])
           (Table_new ∅ false).

(** One row of one cell; the cell took the focus and [deleteColumn] was
    called twice: the selection is a cell outside every row. *)
Definition grid_1x1_columns_deleted : Table :=
  do_steps (grid 1 1 ++
            [step_event focus (plain_event (InCell 1 [0; 0]%nat));
             step_call call_deleteColumn;
             step_call call_deleteColumn])
           (Table_new ∅ false).

(** Two rows of two cells; the second cell of the first row took the focus,
    then its row was deleted and then its column. *)
Definition grid_2x2_row_and_column_deleted : Table :=
  do_steps (grid 2 2 ++
            [step_event focus (plain_event (InCell 2 [0; 0]%nat));
             step_call (call_deleteRow None);
             step_call call_deleteColumn])
           (Table_new ∅ false).

(** One row of three cells, [3; 2; 1]: the host selects cell [3], the focus
    enters cell [2], the host selects cell [1]. *)
Definition grid_1x3_selected_twice : Table :=
  do_steps (grid 1 3 ++
            [step_set_selectedCell (Some 3%nat);
             step_event focus (plain_event (InCell 2 [0; 0]%nat));
             step_set_selectedCell (Some 1%nat)])
           (Table_new ∅ false).



(** ** Vocabulary of the further properties *)

(** The rows of the grid are as many as [_numberOfRows] says. *)
Definition rows_counted (t : Table) : Prop :=
  Z.of_nat (length (table_rows t)) = _numberOfRows t.

(** A cell as [_fillCell] leaves it, whatever marker it got since: it carries
    the class of a styled cell and holds the content of [empty_cell]. *)
Definition filled_cell (readOnly : bool) (e : Element) : Prop :=
  contains (classList e) CSS.cell = true ∧
  children e = children (empty_cell readOnly).

(** The selected cell sits in a row of the grid. *)
Definition selection_in_grid (t : Table) (c r : nat) : Prop :=
  selectedCell t = Some c ∧ td_parent t !! c = Some r ∧
  r ∈ table_rows t ∧ c ∈ cells t r.

(** The controller after the cell at position [pos] of [row], if there is
    one, was removed from its row: what one round of the loop of
    [deleteColumn] does. *)
Definition without_cell (row : nat) (pos : nat) (t : Table) : Table :=
  match (cells t row !! pos)%stdpp with
  | Some td =>
      set_td_parent (delete td (td_parent t))
        (set_tr_cells (<[row := delete pos (cells t row)]> (tr_cells t)) t)
  | None => t
  end.

(** The DOM index [index] is one that [deleteCell] accepts for [row]. *)
Definition deletable (t : Table) (index : Z) (row : nat) : Prop :=
  index = -1 ∨ 0 ≤ index < Z.of_nat (length (cells t row)).

(** Two rows of two cells, with the focus in cell [2], the second cell of the
    first row. *)
Definition grid_2x2_focused : Table :=
  do_steps (grid 2 2 ++ [step_event focus (plain_event (InCell 2 [0; 0]%nat))])
           (Table_new ∅ false).

(** Every cell that has a parent row sits in that row, and the row is in the
    grid: no row was ever taken out. *)
Definition parents_in_grid (t : Table) : Prop :=
  ∀ c r, td_parent t !! c = Some r → r ∈ table_rows t ∧ c ∈ cells t r.

(** A step that is not a call of [deleteRow] or [deleteColumn]. *)
Definition no_deletion (s : Step) : Prop :=
  match s with
  | step_call (call_deleteRow _) | step_call call_deleteColumn => False
  | _ => True
  end.

(** What holds of a controller on which nothing was deleted. *)
Definition sound (t : Table) : Prop :=
  wf t ∧ uniform t ∧ 0 ≤ _numberOfColumns t ∧ rows_counted t ∧
  parents_in_grid t.

(** * Properties *)

Local Open Scope js_scope.

(** ** Lists: positions and insertion *)

Lemma index_of_Some (x : nat) (l : list nat) (i : nat) :
  index_of x l = Some i → (l !! i)%stdpp = Some x ∧ (i < length l)%nat.
Proof.
  revert i. induction l as [|y l IH]; intros i; simpl; [done|].
  destruct (decide (x = y)) as [->|Hne].
  - intros [= <-]. split; [done | simpl; lia].
  - destruct (index_of x l) as [j|] eqn:Hj; simpl; [|done].
    intros [= <-]. destruct (IH j eq_refl) as [H1 H2].
    split; [done | simpl; lia].
Qed.

Lemma index_of_None (x : nat) (l : list nat) :
  index_of x l = None ↔ x ∉ l.
Proof.
  induction l as [|y l IH]; simpl.
  - split; [intros _; apply not_elem_of_nil | done].
  - destruct (decide (x = y)) as [->|Hne].
    + split; [done | intros H; exfalso; apply H; left].
    + rewrite not_elem_of_cons. destruct (index_of x l); simpl.
      * split; [done | intros [_ H]; by apply IH in H].
      * split; [intros _; split; [done | by apply IH] | done].
Qed.

Lemma index_of_elem (x : nat) (l : list nat) :
  x ∈ l → ∃ i, index_of x l = Some i.
Proof.
  intros Hin. destruct (index_of x l) as [i|] eqn:E; [by exists i|].
  by apply index_of_None in E.
Qed.

Lemma index_of_app_fresh (x : nat) (l1 l2 : list nat) :
  x ∉ l1 → index_of x (l1 ++ x :: l2) = Some (length l1).
Proof.
  induction l1 as [|y l1 IH]; simpl; intros Hx.
  - by rewrite decide_True.
  - apply not_elem_of_cons in Hx as [Hne Hx].
    rewrite decide_False by done. by rewrite IH.
Qed.

Lemma index_of_NoDup (x : nat) (l : list nat) (i : nat) :
  NoDup l → (l !! i)%stdpp = Some x → index_of x l = Some i.
Proof.
  intros Hnd Hi.
  destruct (index_of_elem x l) as [j Hj]; [by eapply list_elem_of_lookup_2|].
  destruct (index_of_Some _ _ _ Hj) as [Hj' _].
  by rewrite (NoDup_lookup l i j x Hnd Hi Hj').
Qed.

Lemma index_or_minus_one_range (x : nat) (l : list nat) :
  -1 ≤ index_or_minus_one (index_of x l) < Z.of_nat (length l).
Proof.
  destruct (index_of x l) as [i|] eqn:E; simpl.
  - apply index_of_Some in E as [_ E]. lia.
  - lia.
Qed.

Lemma length_insert_at {A} (p : nat) (x : A) (l : list A) :
  length (insert_at p x l) = S (length l).
Proof.
  unfold insert_at. rewrite length_app. simpl.
  rewrite length_take, length_drop. lia.
Qed.

Lemma elem_of_insert_at {A} (p : nat) (x y : A) (l : list A) :
  y ∈ insert_at p x l ↔ y = x ∨ y ∈ l.
Proof.
  unfold insert_at. rewrite elem_of_app, elem_of_cons.
  assert (y ∈ l ↔ y ∈ take p l ∨ y ∈ drop p l) as ->
    by (rewrite <- elem_of_app; by rewrite take_drop).
  tauto.
Qed.

Lemma NoDup_insert_at {A} (p : nat) (x : A) (l : list A) :
  x ∉ l → NoDup l → NoDup (insert_at p x l).
Proof.
  intros Hx Hnd. unfold insert_at.
  rewrite <- (take_drop p l) in Hnd, Hx.
  apply NoDup_app in Hnd as (H1 & H2 & H3).
  rewrite elem_of_app in Hx.
  apply NoDup_app. split_and!; [done | | ].
  - intros y Hy. rewrite elem_of_cons. intros [-> | Hd]; [tauto | by eapply H2].
  - apply NoDup_cons. tauto.
Qed.

Lemma index_of_insert_at (x : nat) (p : nat) (l : list nat) :
  x ∉ l → (p ≤ length l)%nat → index_of x (insert_at p x l) = Some p.
Proof.
  intros Hx Hp. unfold insert_at.
  rewrite index_of_app_fresh.
  - by rewrite length_take, Nat.min_l.
  - intros H. apply Hx. rewrite <- (take_drop p l). apply elem_of_app. by left.
Qed.

Lemma delete_insert_at {A} (p : nat) (x : A) (l : list A) :
  (p ≤ length l)%nat → delete p (insert_at p x l) = l.
Proof.
  intros Hp. unfold insert_at.
  assert (length (take p l) = p) as Hlen by (rewrite length_take; lia).
  transitivity (delete (length (take p l)) (take p l ++ x :: drop p l)).
  - by rewrite Hlen.
  - rewrite delete_middle. apply take_drop.
Qed.

(** ** Statements that keep a property *)

Section Preserves.
Context (P : Table → Prop).

Lemma preserves_ret {A} (a : A) : preserves P (ret a).
Proof. by intros t Ht. Qed.

Lemma preserves_throw {A} (e : Exception) : preserves P (@throw A e).
Proof. by intros t Ht. Qed.

Lemma preserves_get {A} (f : Table → A) : preserves P (get f).
Proof. by intros t Ht. Qed.

Lemma preserves_modify (f : Table → Table) :
  (∀ t, P t → P (f t)) → preserves P (modify f).
Proof. intros Hf t Ht. by apply Hf. Qed.

Lemma preserves_bind {A B} (m : JS A) (k : A → JS B) :
  preserves P m → (∀ a, preserves P (k a)) → preserves P (bind m k).
Proof.
  intros Hm Hk t Ht. unfold bind.
  specialize (Hm t Ht). destruct (m t) as [t1 [a|e]]; simpl in *.
  - by apply Hk.
  - done.
Qed.

Lemma preserves_for_loop (n lo : nat) (body : nat → JS unit) :
  (∀ i, preserves P (body i)) → preserves P (for_loop n lo body).
Proof.
  intros Hb. revert lo. induction n as [|n IH]; intros lo; simpl.
  - apply preserves_ret.
  - apply preserves_bind; [apply Hb | intros _; apply IH].
Qed.
End Preserves.

Lemma wf_cells (t : Table) (r c : nat) :
  wf t → c ∈ cells t r → (c < next_node t)%nat.
Proof.
  intros (_ & _ & Hc) Hin. unfold cells in Hin.
  destruct (tr_cells t !! r) as [cs|] eqn:E; simpl in Hin.
  - specialize (Hc r cs E). simpl in Hc.
    rewrite Forall_forall in Hc. by apply Hc.
  - by apply elem_of_nil in Hin.
Qed.

Lemma wf_rows (t : Table) (r : nat) :
  wf t → r ∈ table_rows t → (r < next_node t)%nat.
Proof. intros (_ & Hr & _) Hin. rewrite Forall_forall in Hr. by apply Hr. Qed.

Lemma wf_Table_new g ro : wf (Table_new g ro).
Proof.
  split_and!; simpl.
  - apply NoDup_nil_2.
  - apply Forall_nil_2.
  - apply map_Forall_empty.
Qed.

Lemma wf_insertRow_dom index : preserves wf (HTMLTableElement_insertRow index).
Proof.
  intros t Ht. unfold HTMLTableElement_insertRow.
  case_decide; [done|]. simpl.
  destruct Ht as (Hnd & Hr & Hc). split_and!; simpl.
  - apply NoDup_insert_at; [|done].
    intros Hin. rewrite Forall_forall in Hr. specialize (Hr _ Hin). lia.
  - apply Forall_forall. intros r Hin.
    apply elem_of_insert_at in Hin as [->|Hin]; [lia|].
    rewrite Forall_forall in Hr. specialize (Hr _ Hin). lia.
  - apply map_Forall_insert_2; [apply Forall_nil_2|].
    eapply map_Forall_impl; [apply Hc|]. simpl. intros _ cs Hcs.
    eapply Forall_impl; [apply Hcs|]. simpl. lia.
Qed.

Lemma wf_deleteRow_dom index : preserves wf (HTMLTableElement_deleteRow index).
Proof.
  intros t Ht. unfold HTMLTableElement_deleteRow.
  case_decide; [done|]. simpl.
  destruct Ht as (Hnd & Hr & Hc). split_and!; simpl; [| |done].
  - eapply sublist_NoDup; [done|apply sublist_delete].
  - by apply Forall_delete.
Qed.

Lemma wf_insertCell_dom tr index :
  preserves wf (HTMLTableRowElement_insertCell tr index).
Proof.
  intros t Ht. unfold HTMLTableRowElement_insertCell.
  case_decide; [done|]. simpl.
  pose proof (wf_cells t tr) as Hcs.
  destruct Ht as (Hnd & Hr & Hc). split_and!; simpl; [done | |].
  - eapply Forall_impl; [apply Hr|]. simpl. lia.
  - apply map_Forall_insert_2.
    + apply Forall_forall. intros c Hin.
      apply elem_of_insert_at in Hin as [->|Hin]; [lia|].
      specialize (Hcs c (conj Hnd (conj Hr Hc)) Hin). lia.
    + eapply map_Forall_impl; [apply Hc|]. simpl. intros _ cs Hcs'.
      eapply Forall_impl; [apply Hcs'|]. simpl. lia.
Qed.

Lemma wf_deleteCell_dom tr index :
  preserves wf (HTMLTableRowElement_deleteCell tr index).
Proof.
  intros t Ht. unfold HTMLTableRowElement_deleteCell.
  case_decide; [done|].
  destruct (cells t tr !! _)%stdpp as [td|] eqn:E; [|done]. simpl.
  pose proof (wf_cells t tr) as Hcs.
  destruct Ht as (Hnd & Hr & Hc). split_and!; simpl; [done | done |].
  apply map_Forall_insert_2; [|done].
  apply Forall_forall. intros c Hin.
  apply list_elem_of_delete_inv in Hin.
  by apply (Hcs c (conj Hnd (conj Hr Hc))).
Qed.

Global Instance wf_frame : Frame wf.
Proof.
  split; try done.
  - apply wf_insertRow_dom.
  - apply wf_deleteRow_dom.
  - apply wf_insertCell_dom.
  - apply wf_deleteCell_dom.
  - intros mk t Ht. unfold bind, identifier.
    by destruct (globalThis t !! _).
Qed.

Global Instance quiet_frame l : Frame (quiet l).
Proof.
  split; try done.
  - intros index t Ht. unfold HTMLTableElement_insertRow. by case_decide.
  - intros index t Ht. unfold HTMLTableElement_deleteRow. by case_decide.
  - intros tr index t Ht. unfold HTMLTableRowElement_insertCell.
    by case_decide.
  - intros tr index t Ht. unfold HTMLTableRowElement_deleteCell.
    case_decide; [done|]. by case_match.
  - intros mk t [Hn Hg]. unfold bind, identifier. by rewrite Hg.
Qed.

(** ** The methods and the listeners keep every frame property *)

Create HintDb keeps discriminated.
#[local] Hint Resolve preserves_ret preserves_throw preserves_get
  preserves_modify preserves_for_loop : keeps.

(** Splits a statement along its binds and closes the leaves. *)
Ltac keeps :=
  repeat first
    [ progress eauto with keeps
    | apply preserves_bind; [|intros ?]
    | apply preserves_for_loop; intros ?
    | match goal with
      | |- preserves _ (match ?x with _ => _ end) => destruct x
      | |- preserves _ (if ?x then _ else _) => destruct x
      end ].

Section FrameMethods.
Context (P : Table → Prop) `{!Frame P}.

(** The facts of the frame, for [eauto] to use. *)
Ltac frame_facts :=
  match goal with
  | |- preserves ?P _ =>
      pose proof (frame_insertRow_dom (P:=P));
      pose proof (frame_deleteRow_dom (P:=P));
      pose proof (frame_insertCell_dom (P:=P));
      pose proof (frame_deleteCell_dom (P:=P));
      pose proof (frame_alter_td (P:=P));
      pose proof (frame_set_numberOfColumns (P:=P));
      pose proof (frame_set_numberOfRows (P:=P));
      pose proof (frame_set__selectedCell (P:=P));
      pose proof (frame_set_reported (P:=P))
  end.

Lemma frame__fillCell cell : preserves P (_fillCell cell).
Proof. frame_facts. unfold _fillCell, _createContenteditableArea. keeps. Qed.

Lemma frame__fillRow row : preserves P (_fillRow row).
Proof. frame_facts. unfold _fillRow. pose proof frame__fillCell. keeps. Qed.

Lemma frame_insertRow d : preserves P (insertRow d).
Proof. frame_facts. unfold insertRow. pose proof frame__fillRow. keeps. Qed.

Lemma frame_deleteRow i : preserves P (deleteRow i).
Proof. frame_facts. unfold deleteRow. keeps. Qed.

Lemma frame_rows_item i : preserves P (rows_item i).
Proof. intros t Ht. unfold rows_item. by destruct (_ !! _)%stdpp. Qed.

Lemma frame_insertColumn d : preserves P (insertColumn d).
Proof.
  frame_facts. unfold insertColumn. pose proof frame__fillCell.
  pose proof frame_rows_item. keeps.
Qed.

Lemma frame_deleteColumn : preserves P deleteColumn.
Proof. frame_facts. unfold deleteColumn. pose proof frame_rows_item. keeps. Qed.

Lemma frame_set_selectedCell cell : preserves P (set_selectedCell cell).
Proof. frame_facts. unfold set_selectedCell. keeps. Qed.

Lemma frame_do_call c t : P t → P (do_call c t).
Proof.
  destruct c; simpl;
    [apply frame_insertRow | apply frame_deleteRow | apply frame_insertColumn
    | apply frame_deleteColumn].
Qed.

Section Listeners.
Context (nested : EventType → Event → Table → Table).
Hypothesis nested_keeps : ∀ ty ev t, P t → P (nested ty ev t).

Lemma frame_click n : preserves P (HTMLElement_click nested n).
Proof. unfold HTMLElement_click. apply preserves_modify. auto. Qed.

Lemma frame_focus n : preserves P (HTMLElement_focus nested n).
Proof.
  intros t Ht. unfold HTMLElement_focus.
  destruct (_ && _); simpl; auto.
Qed.

Lemma frame_call_listener l ev : preserves P (call_listener nested l ev).
Proof.
  frame_facts. pose proof frame_click. pose proof frame_focus.
  pose proof frame_insertRow.
  pose proof (λ ev : Event, frame_notify (P:=P)
    (λ side, mkCustomEvent (target ev) "mouseInActivatingArea" side true)).
  destruct l; simpl;
    unfold _focusEditField, _blurEditField, _pressedEnterInEditField,
      _clickedOnCell, _containerKeydown, _containerEnterPressed,
      Event_preventDefault;
    keeps.
Qed.

Lemma frame_run_listeners ls ev t :
  P t → P (run_listeners nested ls ev t).
Proof.
  unfold run_listeners. revert t.
  induction ls as [|l ls IH]; intros t Ht; simpl; [done|].
  apply IH. pose proof (frame_call_listener l ev t Ht) as Hl.
  destruct (call_listener nested l ev t) as [t1 [[]|e]]; simpl in *;
    [done|]. by apply frame_set_reported.
Qed.

Lemma frame_dispatch_step ty ev t : P t → P (dispatch_step nested ty ev t).
Proof.
  intros Ht. unfold dispatch_step.
  repeat (match goal with
          | |- P (if ?b then _ else _) => destruct b
          | |- P (run_listeners _ _ _ _) => apply frame_run_listeners
          end; try done).
Qed.
End Listeners.

Lemma frame_dispatch_depth n ty ev t : P t → P (dispatch_depth n ty ev t).
Proof.
  revert ty ev t. induction n as [|n IH]; intros ty ev t Ht; simpl; [done|].
  by apply frame_dispatch_step.
Qed.
End FrameMethods.

Lemma wf_do_step s t : wf t → wf (do_step s t).
Proof.
  destruct s; simpl.
  - by apply frame_do_call, _.
  - by apply frame_set_selectedCell, _.
  - by apply frame_dispatch_depth, _.
Qed.

(** Every controller that a host can bring about is well formed. *)
Lemma wf_do_steps ss t : wf t → wf (do_steps ss t).
Proof.
  unfold do_steps. revert t.
  induction ss as [|s ss IH]; intros t Ht; simpl; [done|].
  apply IH. by apply wf_do_step.
Qed.

Lemma wf_reachable g ro ss : wf (do_steps ss (Table_new g ro)).
Proof. apply wf_do_steps, wf_Table_new. Qed.

(** ** What a dispatch runs, by type of event *)

Lemma run_listeners_nil f ev t : run_listeners f [] ev t = t.
Proof. done. Qed.

Ltac dispatch_cases :=
  rewrite ?run_listeners_nil;
  match goal with
  | |- context [inside_table ?t ?n] => destruct (inside_table t n)
  end;
  repeat match goal with
         | |- context [bool_decide ?P] => destruct (bool_decide P)
         end;
  cbn [andb orb bubbles]; rewrite ?run_listeners_nil; reflexivity.

Lemma dispatch_step_focus f ev t :
  dispatch_step f focus ev t =
  if inside_table t (target ev)
  then run_listeners f [focusEditField] ev t else t.
Proof.
  unfold dispatch_step.
  change (listeners on_htmlElement focus true) with (@nil Listener).
  change (listeners on_htmlElement focus false) with (@nil Listener).
  change (listeners on_table focus false) with (@nil Listener).
  change (listeners on_table focus true) with [focusEditField].
  dispatch_cases.
Qed.

Lemma dispatch_step_blur f ev t : dispatch_step f blur ev t = t.
Proof.
  unfold dispatch_step.
  change (listeners on_htmlElement blur true) with (@nil Listener).
  change (listeners on_htmlElement blur false) with (@nil Listener).
  change (listeners on_table blur false) with (@nil Listener).
  change (listeners on_table blur true) with (@nil Listener).
  dispatch_cases.
Qed.

Lemma dispatch_step_click f ev t :
  dispatch_step f click ev t =
  if inside_table t (target ev)
  then run_listeners f [clickedOnCell] ev t else t.
Proof.
  unfold dispatch_step.
  change (listeners on_htmlElement click true) with (@nil Listener).
  change (listeners on_htmlElement click false) with (@nil Listener).
  change (listeners on_table click false) with [clickedOnCell].
  change (listeners on_table click true) with (@nil Listener).
  dispatch_cases.
Qed.

Lemma dispatch_step_keydown f ev t :
  dispatch_step f keydown ev t =
  let t1 := if inside_table t (target ev)
            then run_listeners f [pressedEnterInEditField] ev t else t in
  if inside_table t (target ev) || bool_decide (target ev = WrapperEl)
  then run_listeners f [containerKeydown] ev t1 else t1.
Proof.
  unfold dispatch_step.
  change (listeners on_htmlElement keydown true) with (@nil Listener).
  change (listeners on_htmlElement keydown false) with [containerKeydown].
  change (listeners on_table keydown false) with [pressedEnterInEditField].
  change (listeners on_table keydown true) with (@nil Listener).
  dispatch_cases.
Qed.

(** [_pressedEnterInEditField] leaves the controller as it is. *)
Lemma run_pressedEnterInEditField f ev t :
  run_listeners f [pressedEnterInEditField] ev t = t.
Proof.
  assert (_pressedEnterInEditField ev t = (t, Normal tt)) as E.
  { unfold _pressedEnterInEditField, Event_preventDefault, bind, get, ret.
    by repeat case_match. }
  unfold run_listeners. simpl. by rewrite E.
Qed.

Lemma dispatch_depth_focus n ev t :
  dispatch_depth (S n) focus ev t = dispatch_depth 1 focus ev t.
Proof. simpl. by rewrite !dispatch_step_focus. Qed.

Lemma focus_nested_irrelevant f g n t :
  (∀ ev t, f focus ev t = g focus ev t) →
  HTMLElement_focus f n t = HTMLElement_focus g n t.
Proof. intros H. unfold HTMLElement_focus. by rewrite H. Qed.

Lemma clickedOnCell_nested_irrelevant f g ev t :
  (∀ ev t, f focus ev t = g focus ev t) →
  _clickedOnCell f ev t = _clickedOnCell g ev t.
Proof.
  intros H. unfold _clickedOnCell, bind, get.
  repeat (case_match; simpl; try done); by apply focus_nested_irrelevant.
Qed.

Lemma dispatch_depth_click n ev t :
  dispatch_depth (S (S n)) click ev t = dispatch_depth 2 click ev t.
Proof.
  change (dispatch_depth (S (S n))) with (dispatch_step (dispatch_depth (S n))).
  change (dispatch_depth 2) with (dispatch_step (dispatch_depth 1)).
  rewrite !dispatch_step_click. case_match; [|done].
  unfold run_listeners. simpl.
  rewrite (clickedOnCell_nested_irrelevant _ (dispatch_depth 1)); [done|].
  intros. apply dispatch_depth_focus.
Qed.

Lemma containerKeydown_nested_irrelevant f g ev t :
  (∀ ev t, f click ev t = g click ev t) →
  _containerKeydown f ev t = _containerKeydown g ev t.
Proof.
  intros H. unfold _containerKeydown. case_match; [|done].
  unfold _containerEnterPressed, bind.
  destruct (insertRow (Some 1) t) as [t1 [row|e]]; [|done].
  unfold get. destruct (cells t1 row !! 0%nat)%stdpp; [|done].
  unfold HTMLElement_click, modify. by rewrite H.
Qed.

Lemma dispatch_depth_keydown n ev t :
  dispatch_depth (S (S (S n))) keydown ev t = dispatch_depth 3 keydown ev t.
Proof.
  change (dispatch_depth (S (S (S n))))
    with (dispatch_step (dispatch_depth (S (S n)))).
  change (dispatch_depth 3) with (dispatch_step (dispatch_depth 2)).
  rewrite !dispatch_step_keydown. cbv zeta.
  rewrite !run_pressedEnterInEditField.
  assert (∀ t, run_listeners (dispatch_depth (S (S n))) [containerKeydown] ev t
             = run_listeners (dispatch_depth 2) [containerKeydown] ev t) as E.
  { intros t'. unfold run_listeners. simpl.
    rewrite (containerKeydown_nested_irrelevant _ (dispatch_depth 2)); [done|].
    intros. apply dispatch_depth_click. }
  by rewrite !E.
Qed.

(** Three levels are all a dispatch ever uses: a deeper bound changes nothing. *)
Lemma dispatch_depth_enough n ty ev t :
  (3 ≤ n)%nat → dispatch_depth n ty ev t = dispatchEvent ty ev t.
Proof.
  intros Hn. unfold dispatchEvent.
  destruct n as [|[|[|n]]]; try lia.
  destruct ty.
  - by rewrite dispatch_depth_focus, (dispatch_depth_focus 2).
  - simpl. by rewrite !dispatch_step_blur.
  - apply dispatch_depth_keydown.
  - by rewrite dispatch_depth_click, (dispatch_depth_click 1).
Qed.

(** ** One round of a filling loop *)

Lemma insert_fill_eq (t : Table) (row : nat) (idx : Z) :
  -1 ≤ idx ≤ Z.of_nat (length (cells t row)) →
  (cell <- HTMLTableRowElement_insertCell row idx ;; _fillCell cell) t =
  (with_new_cell row (position (length (cells t row)) idx) t, Normal tt).
Proof.
  intros Hidx. unfold bind, HTMLTableRowElement_insertCell.
  rewrite decide_False by lia.
  unfold _fillCell, _createContenteditableArea, bind, modify, get, ret,
    alter_td, with_new_cell. simpl.
  do 2 f_equal. by rewrite !alter_insert_eq.
Qed.

Lemma cells_with_new_cell (t : Table) (row pos r : nat) :
  cells (with_new_cell row pos t) r =
  if decide (row = r) then insert_at pos (next_node t) (cells t row)
  else cells t r.
Proof.
  unfold cells at 1. simpl. case_decide as E.
  - subst. by rewrite lookup_insert_eq.
  - by rewrite lookup_insert_ne.
Qed.

Lemma insert_at_end {A} (x : A) (l : list A) :
  insert_at (length l) x l = (l ++ [x])%list.
Proof. unfold insert_at. by rewrite take_ge, drop_ge by lia. Qed.

(** ** [_fillRow] *)

Lemma fill_loop_spec (n : nat) : ∀ (lo : nat) (t : Table) (row : nat),
  ∃ t',
    for_loop n lo (λ _, cell <- HTMLTableRowElement_insertCell row (-1) ;;
                        _fillCell cell) t = (t', Normal tt) ∧
    same_controller t t' ∧
    table_rows t' = table_rows t ∧
    next_node t' = (next_node t + n)%nat ∧
    cells t' row = (cells t row ++ seq (next_node t) n)%list ∧
    (∀ r, r ≠ row → tr_cells t' !! r = tr_cells t !! r) ∧
    (∀ c, c ∈ seq (next_node t) n →
          td_element t' !! c = Some (empty_cell (readOnly t)) ∧
          td_parent t' !! c = Some row) ∧
    (∀ c, (c < next_node t)%nat →
          td_element t' !! c = td_element t !! c ∧
          td_parent t' !! c = td_parent t !! c).
Proof.
  induction n as [|n IH]; intros lo t row.
  - exists t. simpl. unfold same_controller.
    split_and!; try done.
    + by rewrite app_nil_r.
    + intros c Hc. by apply elem_of_nil in Hc.
  - cbn [for_loop]. unfold bind at 1.
    rewrite insert_fill_eq by lia.
    set (t1 := with_new_cell row _ t).
    destruct (IH (S lo) t1 row)
      as (t' & Hrun & Hsame & Hrows & Hnext & Hcells & Hother & Hnew & Hold).
    exists t'. split; [exact Hrun|].
    unfold same_controller in *. subst t1. simpl in *.
    split_and!; try tauto; try congruence.
    + lia.
    + rewrite Hcells, cells_with_new_cell, decide_True by done.
      unfold position. rewrite decide_True by done.
      by rewrite insert_at_end, <- app_assoc.
    + intros r Hr. rewrite Hother by done. by rewrite lookup_insert_ne.
    + intros c Hc. apply elem_of_cons in Hc as [->|Hc]; [|by apply Hnew].
      destruct (Hold (next_node t)) as [-> ->]; [lia|].
      by rewrite !lookup_insert_eq.
    + intros c Hc. destruct (Hold c) as [-> ->]; [lia|].
      by rewrite !lookup_insert_ne by lia.
Qed.

Lemma fillRow_spec (t : Table) (row : nat) :
  let n := Z.to_nat (_numberOfColumns t) in
  ∃ t',
    _fillRow row t = (t', Normal tt) ∧
    same_controller t t' ∧
    table_rows t' = table_rows t ∧
    next_node t' = (next_node t + n)%nat ∧
    cells t' row = (cells t row ++ seq (next_node t) n)%list ∧
    (∀ r, r ≠ row → tr_cells t' !! r = tr_cells t !! r) ∧
    (∀ c, c ∈ seq (next_node t) n →
          td_element t' !! c = Some (empty_cell (readOnly t)) ∧
          td_parent t' !! c = Some row) ∧
    (∀ c, (c < next_node t)%nat →
          td_element t' !! c = td_element t !! c ∧
          td_parent t' !! c = td_parent t !! c).
Proof.
  intros n. unfold _fillRow, bind at 1, get.
  apply fill_loop_spec.
Qed.

(** ** [insertRow] *)

Lemma clamp_cases (d : Z) : clamp d = 0 ∨ clamp d = 1.
Proof. unfold clamp. lia. Qed.

Lemma rowIndex_range (t : Table) (r : nat) :
  -1 ≤ rowIndex t r < Z.of_nat (length (table_rows t)).
Proof. apply index_or_minus_one_range. Qed.

Lemma cellIndex_range (t : Table) (c : nat) : -1 ≤ cellIndex t c.
Proof.
  unfold cellIndex. destruct (td_parent t !! c); [|lia].
  apply index_or_minus_one_range.
Qed.

Lemma position_le (n : nat) (idx : Z) :
  -1 ≤ idx ≤ Z.of_nat n → (position n idx ≤ n)%nat.
Proof. intros H. unfold position. case_decide; lia. Qed.

Lemma insertRow_spec (d : option Z) (t : Table) :
  let row := next_node t in
  let n := Z.to_nat (_numberOfColumns t) in
  ∃ t',
    insertRow d t = (t', Normal row) ∧
    (readOnly t' = readOnly t ∧
     _numberOfColumns t' = _numberOfColumns t ∧
     _numberOfRows t' = _numberOfRows t + 1 ∧
     _selectedCell t' = _selectedCell t ∧
     globalThis t' = globalThis t ∧
     notifications t' = notifications t ∧
     reported t' = reported t) ∧
    (insertRow_position d t ≤ length (table_rows t))%nat ∧
    table_rows t' = insert_at (insertRow_position d t) row (table_rows t) ∧
    next_node t' = (S (next_node t) + n)%nat ∧
    cells t' row = seq (S (next_node t)) n ∧
    (∀ r, r ≠ row → tr_cells t' !! r = tr_cells t !! r) ∧
    (∀ c, c ∈ seq (S (next_node t)) n →
          td_element t' !! c = Some (empty_cell (readOnly t)) ∧
          td_parent t' !! c = Some row) ∧
    (∀ c, (c ≤ next_node t)%nat →
          td_element t' !! c = td_element t !! c ∧
          td_parent t' !! c = td_parent t !! c).
Proof.
  intros row n.
  set (idx := match selectedRow t with
              | Some r => rowIndex t r + clamp (default 0 d)
              | None => 0
              end).
  assert (-1 ≤ idx ≤ Z.of_nat (length (table_rows t))) as Hidx.
  { subst idx. destruct (selectedRow t) as [r|]; [|lia].
    pose proof (rowIndex_range t r). pose proof (clamp_cases (default 0 d)).
    lia. }
  assert (insertRow_position d t = position (length (table_rows t)) idx)
    as Hpos.
  { unfold insertRow_position. subst idx.
    destruct (selectedRow t); [done|]. unfold position.
    by rewrite decide_False. }
  unfold insertRow, bind at 1, get. fold idx.
  unfold bind at 1, HTMLTableElement_insertRow.
  rewrite decide_False by lia.
  unfold bind at 1, modify.
  set (t1 := set_numberOfRows _ _).
  destruct (fillRow_spec t1 row)
    as (t' & Hrun & Hsame & Hrows & Hnext & Hcells & Hother & Hnew & Hold).
  subst row n. unfold bind at 1. rewrite Hrun. unfold ret.
  exists t'. split; [done|].
  unfold same_controller in Hsame. subst t1. simpl in *.
  assert (cells t' (next_node t)
          = seq (S (next_node t)) (Z.to_nat (_numberOfColumns t))) as Hc.
  { rewrite Hcells. unfold cells. simpl. by rewrite lookup_insert_eq. }
  rewrite Hpos.
  split_and!; try tauto; try congruence.
  - by apply position_le.
  - intros r Hr. rewrite Hother by done. by rewrite lookup_insert_ne.
  - intros c Hle. apply Hold. lia.
Qed.

Lemma insertRow_fresh (d : option Z) (t : Table) :
  wf t →
  (next_node t ∉ table_rows t) ∧
  rowIndex (fst (insertRow d t)) (next_node t)
  = Z.of_nat (insertRow_position d t).
Proof.
  intros Hwf.
  assert (next_node t ∉ table_rows t) as Hfresh.
  { intros Hin. apply (wf_rows _ _ Hwf) in Hin. lia. }
  split; [done|].
  destruct (insertRow_spec d t) as (t' & Hrun & _ & Hle & Hrows & _).
  rewrite Hrun. simpl. unfold rowIndex. rewrite Hrows.
  by rewrite index_of_insert_at.
Qed.

(** ** [insertColumn] *)

Lemma row_fill_eq (t : Table) (i row : nat) (idx : Z) :
  (table_rows t !! i)%stdpp = Some row →
  -1 ≤ idx ≤ Z.of_nat (length (cells t row)) →
  (row <- rows_item i ;;
   cell <- HTMLTableRowElement_insertCell row idx ;;
   _fillCell cell) t =
  (with_new_cell row (position (length (cells t row)) idx) t, Normal tt).
Proof.
  intros Hrow Hidx. unfold bind at 1, rows_item. rewrite Hrow.
  by apply insert_fill_eq.
Qed.

(** The loop over the rows, from row [lo] on: every row gets one new cell at
    the DOM index [idx], provided [idx] is in range for it. *)
Lemma insertColumn_loop_spec (idx : Z) (k : nat) : ∀ (lo : nat) (t : Table),
  (lo + k = length (table_rows t))%nat →
  NoDup (table_rows t) →
  (∀ r, r ∈ drop lo (table_rows t) →
        -1 ≤ idx ≤ Z.of_nat (length (cells t r))) →
  ∃ t',
    for_loop k lo (λ i, row <- rows_item i ;;
                        cell <- HTMLTableRowElement_insertCell row idx ;;
                        _fillCell cell) t = (t', Normal tt) ∧
    same_controller t t' ∧
    table_rows t' = table_rows t ∧
    next_node t' = (next_node t + k)%nat ∧
    (∀ j r, (table_rows t !! (lo + j)%nat)%stdpp = Some r →
       cells t' r = insert_at (position (length (cells t r)) idx)
                              (next_node t + j)%nat (cells t r) ∧
       td_element t' !! (next_node t + j)%nat
         = Some (empty_cell (readOnly t)) ∧
       td_parent t' !! (next_node t + j)%nat = Some r) ∧
    (∀ r, r ∉ drop lo (table_rows t) → tr_cells t' !! r = tr_cells t !! r) ∧
    (∀ c, (c < next_node t)%nat →
          td_element t' !! c = td_element t !! c ∧
          td_parent t' !! c = td_parent t !! c).
Proof.
  induction k as [|k IH]; intros lo t Hlen Hnd Hidx.
  - exists t. simpl. unfold same_controller. split_and!; try done.
    intros j r Hj. apply lookup_lt_Some in Hj. lia.
  - destruct (lookup_lt_is_Some_2 (table_rows t) lo) as [r0 Hr0]; [lia|].
    assert (drop lo (table_rows t) = r0 :: drop (S lo) (table_rows t)) as Hdrop
      by (by apply drop_S).
    assert (r0 ∉ drop (S lo) (table_rows t)) as Hr0_notin.
    { intros Hin. apply list_elem_of_lookup in Hin as [j Hj].
      rewrite lookup_drop in Hj.
      pose proof (NoDup_lookup _ _ _ _ Hnd Hr0 Hj). lia. }
    assert (-1 ≤ idx ≤ Z.of_nat (length (cells t r0))) as Hidx0.
    { apply Hidx. rewrite Hdrop. left. }
    cbn [for_loop]. unfold bind at 1.
    rewrite (row_fill_eq t lo r0 idx Hr0 Hidx0).
    set (t1 := with_new_cell r0 _ t).
    destruct (IH (S lo) t1) as
      (t' & Hrun & Hsame & Hrows & Hnext & Hnew & Hother & Hold).
    { subst t1. simpl. lia. }
    { done. }
    { intros r Hr. subst t1. simpl in Hr.
      rewrite cells_with_new_cell, decide_False.
      - apply Hidx. rewrite Hdrop. by right.
      - intros ->. done. }
    exists t'. split; [exact Hrun|].
    unfold same_controller in *. subst t1. simpl in *.
    split_and!; try tauto; try congruence.
    + lia.
    + intros j r Hj. destruct j as [|j].
      * rewrite Nat.add_0_r in Hj. rewrite Hr0 in Hj. injection Hj as <-.
        rewrite !Nat.add_0_r.
        destruct (Hold (next_node t)) as [-> ->]; [lia|].
        rewrite !lookup_insert_eq. split_and!; try done.
        unfold cells at 1. rewrite Hother by done.
        by rewrite lookup_insert_eq.
      * replace (lo + S j)%nat with (S lo + j)%nat in Hj by lia.
        destruct (Hnew j r Hj) as (H1 & H2 & H3).
        assert (r ≠ r0) as Hne.
        { intros ->. apply Hr0_notin.
          apply list_elem_of_lookup. exists j. by rewrite lookup_drop. }
        rewrite cells_with_new_cell, decide_False in H1 by done.
        replace (next_node t + S j)%nat with (S (next_node t) + j)%nat by lia.
        done.
    + intros r Hr. rewrite Hdrop in Hr. apply not_elem_of_cons in Hr as [Hne Hr].
      rewrite Hother by done. by rewrite lookup_insert_ne.
    + intros c Hc. destruct (Hold c) as [-> ->]; [lia|].
      by rewrite !lookup_insert_ne by lia.
Qed.

Lemma insertColumn_spec (d : option Z) (t : Table) :
  NoDup (table_rows t) →
  (∀ r, r ∈ table_rows t →
        insertColumn_index d t ≤ Z.of_nat (length (cells t r))) →
  ∃ t',
    insertColumn d t = (t', Normal tt) ∧
    (readOnly t' = readOnly t ∧
     _numberOfColumns t' = _numberOfColumns t + 1 ∧
     _numberOfRows t' = _numberOfRows t ∧
     _selectedCell t' = _selectedCell t ∧
     globalThis t' = globalThis t ∧
     notifications t' = notifications t ∧
     reported t' = reported t) ∧
    table_rows t' = table_rows t ∧
    next_node t' = (next_node t + length (table_rows t))%nat ∧
    (∀ j r, (table_rows t !! j)%stdpp = Some r →
       cells t' r = insert_at (position (length (cells t r))
                                        (insertColumn_index d t))
                              (next_node t + j)%nat (cells t r) ∧
       td_element t' !! (next_node t + j)%nat
         = Some (empty_cell (readOnly t)) ∧
       td_parent t' !! (next_node t + j)%nat = Some r) ∧
    (∀ r, r ∉ table_rows t → tr_cells t' !! r = tr_cells t !! r) ∧
    (∀ c, (c < next_node t)%nat →
          td_element t' !! c = td_element t !! c ∧
          td_parent t' !! c = td_parent t !! c).
Proof.
  intros Hnd Hidx.
  assert (-1 ≤ insertColumn_index d t) as Hlo.
  { unfold insertColumn_index. destruct (selectedCell t) as [c|]; [|lia].
    pose proof (cellIndex_range t c).
    pose proof (clamp_cases (default 0 d)). lia. }
  unfold insertColumn, bind at 1, get.
  fold (insertColumn_index d t).
  unfold bind at 1, modify. unfold bind at 1, get.
  set (t1 := set_numberOfColumns _ t).
  destruct (insertColumn_loop_spec (insertColumn_index d t)
              (length (table_rows t1)) 0%nat t1)
    as (t' & Hrun & Hsame & Hrows & Hnext & Hnew & Hother & Hold).
  { done. }
  { done. }
  { intros r Hr. rewrite drop_0 in Hr. subst t1. simpl in Hr.
    specialize (Hidx r Hr). change (cells (set_numberOfColumns _ t) r)
      with (cells t r). lia. }
  exists t'. split; [exact Hrun|].
  unfold same_controller in Hsame. subst t1. simpl in *.
  split_and!; try tauto; try congruence.
Qed.

(** ** Deleting without a selection *)

Lemma deleteColumn_unselected (t : Table) :
  selectedCell t = None → deleteColumn t = (t, Normal tt).
Proof. intros H. unfold deleteColumn, bind, get. by rewrite H. Qed.

Lemma deleteRow_unselected (index : option Z) (t : Table) :
  selectedRow t = None → deleteRow index t = (t, Normal tt).
Proof. intros H. unfold deleteRow, bind, get. by rewrite H. Qed.

(** ** Calls on a controller without a selection *)


Lemma cells_eq (t t' : Table) (r : nat) :
  tr_cells t' !! r = tr_cells t !! r → cells t' r = cells t r.
Proof. unfold cells. by intros ->. Qed.





(** C7. [deleteColumn] without a selected cell and [deleteRow] without a
    selected row return normally and leave the controller, the counters and
    the grid as they were. *)
Theorem C7_delete_without_selection_is_noop (t : Table) :
  (selectedCell t = None → deleteColumn t = (t, Normal tt)) ∧
  (∀ index, selectedRow t = None → deleteRow index t = (t, Normal tt)).
Proof.
  split.
  - apply deleteColumn_unselected.
  - intros index. apply deleteRow_unselected.
Qed.

Lemma C7_delete_without_selection_witness :
  deleteColumn grid_2x2 = (grid_2x2, Normal tt) ∧
  deleteRow (Some 0) grid_2x2 = (grid_2x2, Normal tt).
Proof.
  split.
  - apply (proj1 (C7_delete_without_selection_is_noop grid_2x2)).
    reflexivity.
  - apply (proj2 (C7_delete_without_selection_is_noop grid_2x2)).
    reflexivity.
Defined.

(** ** Rows: [insertRow] and its wrappers *)

Lemma selectedRow_attached_position (direction : option Z) (t : Table) (r : nat) :
  selectedRow t = Some r → r ∈ table_rows t →
  Z.of_nat (insertRow_position direction t)
  = rowIndex t r + clamp (default 0 direction).
Proof.
  intros Hsel Hin. unfold insertRow_position. rewrite Hsel.
  destruct (index_of_elem r (table_rows t) Hin) as [i Hi].
  pose proof (clamp_cases (default 0 direction)).
  unfold position, rowIndex. rewrite Hi. simpl.
  case_decide; lia.
Qed.





(** ** Columns: [insertColumn] *)






(** ** [deleteRow] *)

Lemma NoDup_not_elem_of_delete (l : list nat) (i : nat) (x : nat) :
  NoDup l → (l !! i)%stdpp = Some x → x ∉ delete i l.
Proof.
  intros Hnd Hi Hin.
  apply list_elem_of_lookup in Hin as [j Hj].
  destruct (decide (j < i)%nat) as [Hlt|Hge].
  - rewrite list_lookup_delete_lt in Hj by done.
    pose proof (NoDup_lookup _ _ _ _ Hnd Hi Hj). lia.
  - rewrite list_lookup_delete_ge in Hj by lia.
    pose proof (NoDup_lookup _ _ _ _ Hnd Hi Hj). lia.
Qed.

Lemma deleteRow_selected (index : option Z) (t : Table) (r : nat) :
  selectedRow t = Some r →
  deleteRow index t =
  (set_numberOfRows (_numberOfRows t - 1)
     (set_table_rows
        (delete (position (pred (length (table_rows t))) (rowIndex t r))
                (table_rows t)) t),
   Normal tt).
Proof.
  intros Hsel. unfold deleteRow, bind at 1, get. rewrite Hsel.
  unfold bind at 1, bind at 1, HTMLTableElement_deleteRow.
  pose proof (rowIndex_range t r).
  by rewrite decide_False by lia.
Qed.

(** C9, as the code has it. [deleteRow] never reads its argument.  When the
    selected row is in the grid, the row that goes is that one, at its
    index, and [_numberOfRows] drops by one.  When the selected row was
    already removed from the grid, its [rowIndex] is [-1] and the DOM removes
    the last row of the grid, if there is one. *)
Theorem C9_deleteRow_ignores_its_argument (index : option Z) (t : Table) :
  wf t →
  deleteRow index t = deleteRow None t ∧
  (∀ r, selectedRow t = Some r → r ∈ table_rows t →
     ∃ i : nat,
       rowIndex t r = Z.of_nat i ∧
       (table_rows t !! i)%stdpp = Some r ∧
       deleteRow index t =
         (set_numberOfRows (_numberOfRows t - 1)
            (set_table_rows (delete i (table_rows t)) t), Normal tt) ∧
       (r ∉ delete i (table_rows t))) ∧
  (∀ r, selectedRow t = Some r → r ∉ table_rows t →
     deleteRow index t =
       (set_numberOfRows (_numberOfRows t - 1)
          (set_table_rows
             (delete (pred (length (table_rows t))) (table_rows t)) t),
        Normal tt)).
Proof.
  intros Hwf. split_and!.
  - reflexivity.
  - intros r Hsel Hin.
    destruct (index_of_elem r (table_rows t) Hin) as [i Hi].
    destruct (index_of_Some _ _ _ Hi) as [Hlook _].
    assert (rowIndex t r = Z.of_nat i) as Hidx
      by (unfold rowIndex; by rewrite Hi).
    exists i. split_and!; try done.
    + rewrite (deleteRow_selected index t r Hsel), Hidx.
      unfold position. rewrite decide_False by lia.
      by rewrite Nat2Z.id.
    + apply NoDup_not_elem_of_delete; [apply Hwf | done].
  - intros r Hsel Hin. apply index_of_None in Hin.
    rewrite (deleteRow_selected index t r Hsel).
    unfold rowIndex. rewrite Hin. reflexivity.
Qed.

Lemma C9_deleteRow_witness :
  wf grid_1x1_focused ∧
  deleteRow (Some 7) grid_1x1_focused =
    (set_numberOfRows 0 (set_table_rows [] grid_1x1_focused), Normal tt).
Proof.
  assert (wf grid_1x1_focused) as Hwf
    by (apply (bool_decide_unpack _); vm_compute; reflexivity).
  split; [exact Hwf|].
  destruct (C9_deleteRow_ignores_its_argument (Some 7) grid_1x1_focused Hwf)
    as (_ & Hin & _).
  destruct (Hin 0%nat) as (i & Hidx & _ & Hrun & _).
  - reflexivity.
  - apply (bool_decide_unpack _). vm_compute. reflexivity.
  - rewrite Hrun. vm_compute in Hidx. destruct i; [reflexivity | discriminate].
Defined.

(** In [grid_2x1_row_deleted] the selected row is not in the grid any more;
    [deleteRow()] removes the one row that is left, which does not hold the
    selected cell. *)
Lemma C9_deleteRow_counterexample :
  ¬ deleteRow_as_specified None grid_2x1_row_deleted.
Proof.
  intros [_ H].
  change (selectedRow grid_2x1_row_deleted) with (Some 1%nat) in H.
  destruct H as (i & Hi & _).
  change (table_rows grid_2x1_row_deleted) with [0%nat] in Hi.
  destruct i as [|i]; simpl in Hi; [discriminate | by destruct i].
Qed.

(** ** The wrappers *)




(** ** The highlight marker *)


Lemma contains_remove_other (c x : string) (cl : list string) :
  contains (classList_remove c cl) x = true → contains cl x = true.
Proof.
  unfold contains, classList_remove.
  rewrite !bool_decide_eq_true, list_elem_of_filter. tauto.
Qed.


(** C5. The code breaks the exclusivity of the marker: [_focusEditField]
    writes [_selectedCell] without going through the setter.  After the host
    selects cell 3, the focus enters cell 2 and the host selects cell 1, the
    cells 3 and 1 both carry the marker. *)
Theorem C5_two_cells_highlighted :
  highlighted grid_1x3_selected_twice = [3%nat; 1%nat] ∧
  _selectedCell grid_1x3_selected_twice = Some 1%nat.
Proof. split; vm_compute; reflexivity. Qed.

(** ** Focus leaving a cell *)

(** C6. The code does not listen to [blur]: [_attachEvents] registers no
    listener of that type and never names [_blurEditField], so a [blur]
    event changes nothing, and the selection of [grid_1x1_focused] stays
    where the method, had it run, would have cleared it. *)
Theorem C6_blur_is_not_listened_to :
  Forall (λ r, reg_type r ≠ blur ∧ reg_listener r ≠ blurEditField)
         _attachEvents ∧
  (∀ ev t, dispatchEvent blur ev t = t) ∧
  _selectedCell
    (dispatchEvent blur (plain_event (InCell 1 [0; 0]%nat)) grid_1x1_focused)
    = Some 1%nat ∧
  _selectedCell
    (fst (_blurEditField (plain_event (InCell 1 [0; 0]%nat)) grid_1x1_focused))
    = None.
Proof.
  split_and!.
  - repeat constructor; done.
  - intros ev t. unfold dispatchEvent. simpl. apply dispatch_step_blur.
  - reflexivity.
  - reflexivity.
Qed.

(** ** Ctrl+Enter *)

Lemma clickedOnCell_filled f (t : Table) (c : nat) :
  td_element t !! c = Some (empty_cell (readOnly t)) →
  _clickedOnCell f (mkEvent (InCell c []) "" false false) t
  = HTMLElement_focus f (InCell c [0; 0]%nat) t.
Proof.
  intros Hel.
  unfold _clickedOnCell, bind, get. cbn [target node_classList].
  rewrite Hel. cbn [element_at].
  assert (contains (classList (empty_cell (readOnly t))) CSS.cell = true) as ->
    by (vm_compute; reflexivity).
  cbn [negb]. cbv beta iota. rewrite Hel. cbn [element_at].
  assert (querySelector CSS.inputField (empty_cell (readOnly t))
          = Some [0; 0]%nat) as -> by (vm_compute; reflexivity).
  reflexivity.
Qed.

Lemma focusEditField_input (t : Table) (c : nat) :
  td_element t !! c = Some (empty_cell (readOnly t)) →
  _focusEditField (mkEvent (InCell c [0; 0]%nat) "" false false) t
  = (set__selectedCell (Some c) t, Normal tt).
Proof.
  intros Hel.
  unfold _focusEditField, bind, get, modify, closest_cell.
  cbn [target node_classList]. rewrite Hel.
  assert (element_at (empty_cell (readOnly t)) [0; 0]%nat
          = Some (mkElement "div" [CSS.inputField]
                    [("contenteditable"%string, negb (readOnly t))] []))
    as -> by reflexivity.
  cbn [element_at classList].
  assert (contains [CSS.inputField] CSS.inputField = true) as ->
    by (vm_compute; reflexivity).
  cbn [negb]. cbv beta iota. rewrite Hel. cbn [element_at].
  assert (contains (classList (empty_cell (readOnly t))) CSS.cell = true) as ->
    by (vm_compute; reflexivity).
  reflexivity.
Qed.

(** A click on a filled cell of the grid moves the focus into its input,
    which selects the cell, unless the input is not editable. *)
Lemma click_on_filled_cell (t : Table) (c row : nat) :
  td_element t !! c = Some (empty_cell (readOnly t)) →
  td_parent t !! c = Some row →
  row ∈ table_rows t →
  dispatch_depth 2 click (mkEvent (InCell c []) "" false false) t
  = if readOnly t then t else set__selectedCell (Some c) t.
Proof.
  intros Hel Hpar Hrow.
  assert (∀ p, inside_table t (InCell c p) = true) as Hin.
  { intros p. simpl. rewrite Hpar. by apply bool_decide_eq_true. }
  change (dispatch_depth 2) with (dispatch_step (dispatch_depth 1)).
  rewrite dispatch_step_click. cbn [target]. rewrite Hin.
  unfold run_listeners. cbn [foldl call_listener].
  rewrite clickedOnCell_filled by done.
  unfold HTMLElement_focus. rewrite Hin.
  assert (node_contenteditable t (InCell c [0; 0]%nat) = negb (readOnly t))
    as ->.
  { simpl. rewrite Hel. simpl. by destruct (readOnly t). }
  destruct (readOnly t) eqn:Hro; [done|]. cbn [negb andb].
  change (dispatch_depth 1) with (dispatch_step (dispatch_depth 0)).
  rewrite dispatch_step_focus. cbn [target]. rewrite Hin.
  unfold run_listeners. cbn [foldl call_listener].
  rewrite focusEditField_input; [done|]. by rewrite Hro.
Qed.

(** What the listener does after [insertRow(1)] returned. *)
Lemma containerEnterPressed_eq nested (ev : Event) (t : Table) :
  ∃ t1, insertRow (Some 1) t = (t1, Normal (next_node t)) ∧
    _containerEnterPressed nested ev t =
    match (cells t1 (next_node t) !! 0%nat)%stdpp with
    | None => (t1, Throw TypeError)
    | Some c =>
        let t2 := nested click (mkEvent (InCell c []) "" false false) t1 in
        match globalThis t2 !! "side"%string with
        | Some side =>
            (set_notifications
               (notifications t2 ++
                [mkCustomEvent (target ev) "mouseInActivatingArea" side true])
               t2, Normal tt)
        | None => (t2, Throw ReferenceError)
        end
    end.
Proof.
  destruct (insertRow_spec (Some 1) t) as (t1 & Hrun & _).
  exists t1. split; [done|].
  unfold _containerEnterPressed, bind at 1. rewrite Hrun.
  unfold bind at 1, get.
  destruct (cells t1 (next_node t) !! 0%nat)%stdpp as [c|]; [|done].
  unfold bind at 1, HTMLElement_click, modify.
  unfold bind, identifier, EventTarget_dispatchEvent, modify. cbv zeta.
  by destruct (globalThis _ !! _).
Qed.

(** A key press with Ctrl+Enter that reaches the wrapper runs
    [_containerEnterPressed], and what it throws is reported. *)
Lemma dispatch_ctrl_enter (ev : Event) (t : Table) :
  key ev = "Enter"%string → ctrlKey ev = true →
  inside_table t (target ev) || bool_decide (target ev = WrapperEl) = true →
  dispatchEvent keydown ev t =
  match _containerEnterPressed (dispatch_depth 2) ev t with
  | (t', Normal _) => t'
  | (t', Throw e) => set_reported (reported t' ++ [e])%list t'
  end.
Proof.
  intros Hkey Hctrl Hin. unfold dispatchEvent.
  change (dispatch_depth 3) with (dispatch_step (dispatch_depth 2)).
  rewrite dispatch_step_keydown. cbv zeta.
  rewrite run_pressedEnterInEditField.
  assert ((if inside_table t (target ev) then t else t) = t) as ->
    by (by destruct (inside_table t (target ev))).
  rewrite Hin. unfold run_listeners. cbn [foldl call_listener].
  unfold _containerKeydown. rewrite Hkey, Hctrl.
  by rewrite bool_decide_eq_true_2.
Qed.

(** C8. The code inserts the row after the current one and moves the
    selection to the first cell of the new row, but hands no notification to
    the host: reading [side], which nothing binds, throws [ReferenceError]
    before the event is built.  Stated for a key press with Ctrl+Enter inside
    the grid of a table that is not read-only and has a column. *)
Theorem C8_ctrl_enter_sends_no_notification (ev : Event) (t : Table) :
  key ev = "Enter"%string → ctrlKey ev = true →
  inside_table t (target ev) = true →
  1 ≤ _numberOfColumns t → readOnly t = false →
  globalThis t !! "side"%string = None →
  let t' := dispatchEvent keydown ev t in
  let row := next_node t in
  table_rows t'
    = insert_at (insertRow_position (Some 1) t) row (table_rows t) ∧
  (∀ r, selectedRow t = Some r → r ∈ table_rows t →
        Z.of_nat (insertRow_position (Some 1) t) = rowIndex t r + 1) ∧
  (cells t' row !! 0%nat)%stdpp = Some (S row) ∧
  _selectedCell t' = Some (S row) ∧
  notifications t' = notifications t ∧
  reported t' = (reported t ++ [ReferenceError])%list.
Proof.
  intros Hkey Hctrl Hin Hcols Hro Hside t' row. subst t' row.
  rewrite dispatch_ctrl_enter by (try done; by rewrite Hin).
  destruct (containerEnterPressed_eq (dispatch_depth 2) ev t)
    as (t1 & Hrun & ->).
  destruct (insertRow_spec (Some 1) t)
    as (t1' & Hrun' & Hsame & _ & Hrows & _ & Hcells & _ & Hnew & _).
  rewrite Hrun in Hrun'. injection Hrun' as <-.
  destruct Hsame as (Hro1 & _ & _ & _ & Hg1 & Hn1 & Hr1).
  assert (∃ m, Z.to_nat (_numberOfColumns t) = S m) as [m Hm]
    by (exists (Z.to_nat (_numberOfColumns t - 1)); lia).
  rewrite Hm in Hcells, Hnew. rewrite Hcells. cbn [seq lookup list_lookup].
  destruct (Hnew (S (next_node t))) as [Hel Hpar]; [left|].
  rewrite (click_on_filled_cell t1 (S (next_node t)) (next_node t)).
  - rewrite Hro1, Hro. cbn [globalThis set__selectedCell].
    rewrite Hg1, Hside. cbn.
    split_and!; try done.
    + intros r Hsel Hr.
      by rewrite (selectedRow_attached_position (Some 1) t r Hsel Hr).
    + unfold cells. simpl. fold (cells t1 (next_node t)). by rewrite Hcells.
    + by rewrite Hr1.
  - by rewrite Hro1.
  - done.
  - rewrite Hrows. apply elem_of_insert_at. by left.
Qed.

Lemma C8_ctrl_enter_witness :
  let t' := dispatchEvent keydown (ctrl_enter (InCell 1 [0; 0]%nat))
                          grid_1x1_focused in
  table_rows t' = (table_rows grid_1x1_focused ++ [2%nat])%list ∧
  _selectedCell t' = Some 3%nat ∧
  notifications t' = notifications grid_1x1_focused ∧
  reported t' = (reported grid_1x1_focused ++ [ReferenceError])%list.
Proof.
  assert (1 ≤ _numberOfColumns grid_1x1_focused) as Hcols
    by (vm_compute; discriminate).
  assert (inside_table grid_1x1_focused (InCell 1 [0; 0]%nat) = true) as Hin
    by (vm_compute; reflexivity).
  assert (readOnly grid_1x1_focused = false) as Hro
    by (vm_compute; reflexivity).
  assert (globalThis grid_1x1_focused !! "side"%string = None) as Hside
    by (vm_compute; reflexivity).
  destruct (C8_ctrl_enter_sends_no_notification
              (ctrl_enter (InCell 1 [0; 0]%nat)) grid_1x1_focused
              eq_refl eq_refl Hin Hcols Hro Hside)
    as (H1 & _ & _ & H2 & H3 & H4).
  cbv zeta. split_and!.
  - rewrite H1. vm_compute. reflexivity.
  - rewrite H2. vm_compute. reflexivity.
  - exact H3.
  - exact H4.
Defined.

(** C10. When [_numberOfColumns] is at least 1 the new row has a first cell
    and the listener does not fail on it.  When [_numberOfColumns] is 0 the
    new row has no cell: the listener throws [TypeError] on [cells[0].click()]
    and notifies nobody, with the row already in the grid and [_numberOfRows]
    already incremented; a dispatch of Ctrl+Enter then reports that
    exception. *)
Theorem C10_ctrl_enter_needs_a_column
    (nested : EventType → Event → Table → Table) (ev : Event) (t : Table) :
  (1 ≤ _numberOfColumns t →
   ∃ t1 c,
     insertRow (Some 1) t = (t1, Normal (next_node t)) ∧
     (cells t1 (next_node t) !! 0%nat)%stdpp = Some c ∧
     snd (_containerEnterPressed nested ev t) ≠ Throw TypeError) ∧
  (_numberOfColumns t = 0 →
   ∃ t1,
     insertRow (Some 1) t = (t1, Normal (next_node t)) ∧
     cells t1 (next_node t) = [] ∧
     _containerEnterPressed nested ev t = (t1, Throw TypeError) ∧
     next_node t ∈ table_rows t1 ∧
     length (table_rows t1) = S (length (table_rows t)) ∧
     _numberOfRows t1 = _numberOfRows t + 1 ∧
     notifications t1 = notifications t ∧
     (key ev = "Enter"%string → ctrlKey ev = true →
      inside_table t (target ev) || bool_decide (target ev = WrapperEl) = true →
      dispatchEvent keydown ev t
      = set_reported (reported t1 ++ [TypeError])%list t1)).
Proof.
  split; intros Hcols.
  - destruct (containerEnterPressed_eq nested ev t) as (t1 & Hrun & Heq).
    destruct (insertRow_spec (Some 1) t)
      as (t1' & Hrun' & _ & _ & _ & _ & Hcells & _).
    rewrite Hrun in Hrun'. injection Hrun' as <-.
    assert (∃ m, Z.to_nat (_numberOfColumns t) = S m) as [m Hm]
      by (exists (Z.to_nat (_numberOfColumns t - 1)); lia).
    rewrite Hm in Hcells.
    exists t1, (S (next_node t)). split_and!; [done | by rewrite Hcells |].
    rewrite Heq, Hcells. cbn [seq lookup list_lookup]. cbv zeta.
    by destruct (globalThis _ !! _).
  - destruct (containerEnterPressed_eq nested ev t) as (t1 & Hrun & Heq).
    destruct (containerEnterPressed_eq (dispatch_depth 2) ev t)
      as (t1'' & Hrun'' & Heq'').
    rewrite Hrun in Hrun''. injection Hrun'' as <-.
    destruct (insertRow_spec (Some 1) t)
      as (t1' & Hrun' & Hsame & _ & Hrows & _ & Hcells & _).
    rewrite Hrun in Hrun'. injection Hrun' as <-.
    rewrite Hcols in Hcells. cbn [Z.to_nat seq] in Hcells.
    rewrite Hcells in Heq, Heq''. cbn [lookup list_lookup] in Heq, Heq''.
    exists t1. split_and!; try done.
    + rewrite Hrows. apply elem_of_insert_at. by left.
    + by rewrite Hrows, length_insert_at.
    + apply Hsame.
    + apply Hsame.
    + intros Hkey Hctrl Hin. rewrite dispatch_ctrl_enter by done.
      by rewrite Heq''.
Qed.

Lemma C10_ctrl_enter_witness :
  (∃ t1 c, insertRow (Some 1) grid_1x1_focused
           = (t1, Normal (next_node grid_1x1_focused)) ∧
           (cells t1 (next_node grid_1x1_focused) !! 0%nat)%stdpp = Some c) ∧
  (∃ t1, _containerEnterPressed (dispatch_depth 2) (ctrl_enter TableEl)
           (Table_new ∅ false) = (t1, Throw TypeError) ∧
         _numberOfRows t1 = 1).
Proof.
  split.
  - assert (1 ≤ _numberOfColumns grid_1x1_focused) as Hcols
      by (vm_compute; discriminate).
    destruct (proj1 (C10_ctrl_enter_needs_a_column
                       (dispatch_depth 2) (ctrl_enter TableEl)
                       grid_1x1_focused) Hcols) as (t1 & c & H1 & H2 & _).
    exists t1, c. split; [exact H1 | exact H2].
  - destruct (proj2 (C10_ctrl_enter_needs_a_column
                       (dispatch_depth 2) (ctrl_enter TableEl)
                       (Table_new ∅ false)) eq_refl)
      as (t1 & _ & _ & Hrun & _ & _ & Hn & _).
    exists t1. split; [exact Hrun | exact Hn].
Defined.

(** * Further properties of the controller *)

(** ** The row counter *)



(** ** Keys other than Ctrl+Enter *)

(** X2. A key press that is not Ctrl+Enter leaves the controller as it is,
    wherever it happens: [_pressedEnterInEditField] at most cancels the
    default action, and [_containerKeydown] returns at its guard. *)
Theorem other_keys_change_nothing (ev : Event) (t : Table) :
  bool_decide (key ev = "Enter"%string) && ctrlKey ev = false →
  dispatchEvent keydown ev t = t.
Proof.
  intros Hkey. unfold dispatchEvent.
  change (dispatch_depth 3) with (dispatch_step (dispatch_depth 2)).
  rewrite dispatch_step_keydown. cbv zeta.
  rewrite run_pressedEnterInEditField.
  assert ((if inside_table t (target ev) then t else t) = t) as ->
    by (by destruct (inside_table t (target ev))).
  destruct (_ || _); [|done].
  unfold run_listeners. cbn [foldl call_listener].
  unfold _containerKeydown. by rewrite Hkey.
Qed.

Lemma other_keys_witness :
  dispatchEvent keydown (mkEvent (InCell 1 [0; 0]%nat) "Enter" false false)
                grid_1x1_focused = grid_1x1_focused.
Proof. apply other_keys_change_nothing. reflexivity. Defined.

(** ** The host is never notified *)

Lemma quiet_do_step l s t : quiet l t → quiet l (do_step s t).
Proof.
  destruct s; simpl.
  - by apply frame_do_call, _.
  - by apply frame_set_selectedCell, _.
  - by apply frame_dispatch_depth, _.
Qed.

(** X3. When the page has no global [side], no call, assignment or event ever
    makes the controller hand a notification to the host. *)
Theorem no_notification_without_side
    (globals : gmap string string) (ro : bool) (steps : list Step) :
  globals !! "side"%string = None →
  notifications (do_steps steps (Table_new globals ro)) = [].
Proof.
  intros Hside.
  cut (quiet [] (do_steps steps (Table_new globals ro))).
  { intros H. apply H. }
  unfold do_steps.
  assert (quiet [] (Table_new globals ro)) as H0 by done.
  revert H0. generalize (Table_new globals ro).
  induction steps as [|s steps IH]; intros t Ht; simpl; [done|].
  apply IH. by apply quiet_do_step.
Qed.

Lemma no_notification_witness :
  notifications
    (do_steps (grid 1 1 ++
               [step_event focus (plain_event (InCell 1 [0; 0]%nat));
                step_event keydown (ctrl_enter (InCell 1 [0; 0]%nat))])
              (Table_new ∅ false)) = [].
Proof. apply no_notification_without_side. reflexivity. Defined.

(** ** Focus and click *)

Lemma filled_cell_input (ro : bool) (e : Element) :
  filled_cell ro e →
  element_at e [0; 0]%nat
  = Some (mkElement "div" [CSS.inputField]
            [("contenteditable"%string, negb ro)] []) ∧
  querySelector CSS.inputField e = Some [0; 0]%nat.
Proof.
  intros [_ Hch]. destruct e as [tg cl at_ ch]. simpl in Hch. subst ch.
  split; [reflexivity | vm_compute; reflexivity].
Qed.

Lemma inside_table_cell (t : Table) (c r : nat) (p : list nat) :
  td_parent t !! c = Some r → r ∈ table_rows t →
  inside_table t (InCell c p) = true.
Proof. intros Hpar Hr. simpl. rewrite Hpar. by apply bool_decide_eq_true. Qed.

Lemma focusEditField_filled (t : Table) (c : nat) (e : Element) :
  td_element t !! c = Some e → filled_cell (readOnly t) e →
  _focusEditField (plain_event (InCell c [0; 0]%nat)) t
  = (set__selectedCell (Some c) t, Normal tt).
Proof.
  intros Hel Hfilled.
  destruct (filled_cell_input _ _ Hfilled) as [Hinp _].
  unfold _focusEditField, bind, get, modify, closest_cell.
  cbn [target plain_event node_classList]. rewrite Hel, Hinp.
  cbn [classList].
  assert (contains [CSS.inputField] CSS.inputField = true) as ->
    by (vm_compute; reflexivity).
  cbn [negb]. cbv beta iota. rewrite Hel. cbn [element_at].
  by rewrite (proj1 Hfilled).
Qed.

Lemma focusEditField_elsewhere (ev : Event) (t : Table) :
  contains (node_classList t (target ev)) CSS.inputField = false →
  _focusEditField ev t = (t, Normal tt).
Proof. intros H. unfold _focusEditField, bind, get. by rewrite H. Qed.

(** X4. A [focus] event on the input of a filled cell of the grid makes that
    cell the selected one and changes nothing else: no class of any cell is
    touched, so the cell is not highlighted.  A [focus] event on anything
    that is not an input field changes nothing. *)
Theorem focus_selects_the_cell :
  (∀ t c r e,
     td_element t !! c = Some e → filled_cell (readOnly t) e →
     td_parent t !! c = Some r → r ∈ table_rows t →
     dispatchEvent focus (plain_event (InCell c [0; 0]%nat)) t
     = set__selectedCell (Some c) t) ∧
  (∀ t ev,
     contains (node_classList t (target ev)) CSS.inputField = false →
     dispatchEvent focus ev t = t).
Proof.
  split.
  - intros t c r e Hel Hfilled Hpar Hr.
    rewrite <- (dispatch_depth_enough 3) by lia.
    rewrite dispatch_depth_focus.
    change (dispatch_depth 1) with (dispatch_step (dispatch_depth 0)).
    rewrite dispatch_step_focus. cbn [target plain_event].
    rewrite (inside_table_cell t c r) by done.
    unfold run_listeners. cbn [foldl call_listener].
    by rewrite (focusEditField_filled t c e).
  - intros t ev Hcl.
    rewrite <- (dispatch_depth_enough 3) by lia.
    rewrite dispatch_depth_focus.
    change (dispatch_depth 1) with (dispatch_step (dispatch_depth 0)).
    rewrite dispatch_step_focus. destruct (inside_table _ _); [|done].
    unfold run_listeners. cbn [foldl call_listener].
    by rewrite focusEditField_elsewhere.
Qed.

Lemma focus_selects_the_cell_witness :
  dispatchEvent focus (plain_event (InCell 3 [0; 0]%nat)) grid_2x2
  = set__selectedCell (Some 3%nat) grid_2x2 ∧
  dispatchEvent focus (plain_event (InCell 3 [])) grid_2x2 = grid_2x2.
Proof.
  destruct focus_selects_the_cell as [H1 H2]. split.
  - apply (H1 grid_2x2 3%nat 0%nat (empty_cell false)).
    + vm_compute. reflexivity.
    + split; vm_compute; reflexivity.
    + vm_compute. reflexivity.
    + apply (bool_decide_unpack _). vm_compute. reflexivity.
  - apply H2. vm_compute. reflexivity.
Defined.





(** ** [deleteColumn] with a selected cell *)

Lemma deleteCell_eq (t : Table) (row : nat) (idx : Z) :
  deletable t idx row →
  HTMLTableRowElement_deleteCell row idx t
  = (without_cell row (position (pred (length (cells t row))) idx) t,
     Normal tt).
Proof.
  intros Hidx. unfold HTMLTableRowElement_deleteCell, without_cell.
  rewrite decide_False by (unfold deletable in Hidx; lia).
  by destruct (cells t row !! _)%stdpp.
Qed.

Lemma deleteCell_throws (t : Table) (row : nat) (idx : Z) :
  Z.of_nat (length (cells t row)) ≤ idx →
  HTMLTableRowElement_deleteCell row idx t = (t, Throw IndexSizeError).
Proof.
  intros Hidx. unfold HTMLTableRowElement_deleteCell.
  by rewrite decide_True by lia.
Qed.

Lemma cells_without_cell (t : Table) (row pos r : nat) :
  cells (without_cell row pos t) r =
  if decide (row = r) then delete pos (cells t row) else cells t r.
Proof.
  unfold without_cell.
  destruct (cells t row !! pos)%stdpp as [td|] eqn:E.
  - unfold cells at 1. simpl. case_decide as Hr.
    + subst. by rewrite lookup_insert_eq.
    + by rewrite lookup_insert_ne.
  - case_decide as Hr; [|done]. subst.
    apply lookup_ge_None in E.
    by rewrite delete_take_drop, take_ge, drop_ge, app_nil_r by lia.
Qed.

Lemma row_delete_eq (t : Table) (i row : nat) (idx : Z) :
  (table_rows t !! i)%stdpp = Some row →
  deletable t idx row →
  (row <- rows_item i ;; HTMLTableRowElement_deleteCell row idx) t =
  (without_cell row (position (pred (length (cells t row))) idx) t, Normal tt).
Proof.
  intros Hrow Hidx. unfold bind, rows_item. rewrite Hrow.
  by rewrite deleteCell_eq.
Qed.

Lemma without_cell_frame (t : Table) (row pos : nat) :
  same_controller t (without_cell row pos t) ∧
  table_rows (without_cell row pos t) = table_rows t ∧
  next_node (without_cell row pos t) = next_node t ∧
  td_element (without_cell row pos t) = td_element t ∧
  (∀ c, td_parent (without_cell row pos t) !! c = td_parent t !! c ∨
        td_parent (without_cell row pos t) !! c = None) ∧
  (∀ c, (cells t row !! pos)%stdpp = Some c →
        td_parent (without_cell row pos t) !! c = None).
Proof.
  unfold without_cell, same_controller.
  destruct (cells t row !! pos)%stdpp as [td|] eqn:E; simpl.
  - split_and!; try done.
    + intros c. destruct (decide (td = c)) as [->|Hne].
      * right. apply lookup_delete_eq.
      * left. by apply lookup_delete_ne.
    + intros c [= <-]. apply lookup_delete_eq.
  - split_and!; try done. intros c. by left.
Qed.

(** The loop over the rows, from row [lo] on: every row loses the cell at
    the DOM index [idx], provided [deleteCell] accepts the index for it. *)
Lemma deleteColumn_loop_spec (idx : Z) (k : nat) : ∀ (lo : nat) (t : Table),
  (lo + k = length (table_rows t))%nat →
  NoDup (table_rows t) →
  (∀ r, r ∈ drop lo (table_rows t) → deletable t idx r) →
  ∃ t',
    for_loop k lo (λ i, row <- rows_item i ;;
                        HTMLTableRowElement_deleteCell row idx) t
    = (t', Normal tt) ∧
    same_controller t t' ∧
    table_rows t' = table_rows t ∧
    next_node t' = next_node t ∧
    td_element t' = td_element t ∧
    (∀ r, r ∈ drop lo (table_rows t) →
       cells t' r
       = delete (position (pred (length (cells t r))) idx) (cells t r)) ∧
    (∀ r, r ∉ drop lo (table_rows t) → cells t' r = cells t r) ∧
    (∀ c, td_parent t' !! c = td_parent t !! c ∨ td_parent t' !! c = None) ∧
    (∀ r c, r ∈ drop lo (table_rows t) →
       (cells t r !! position (pred (length (cells t r))) idx)%stdpp = Some c →
       td_parent t' !! c = None).
Proof.
  induction k as [|k IH]; intros lo t Hlen Hnd Hidx.
  - exists t. simpl. unfold same_controller.
    assert (drop lo (table_rows t) = []) as Hnil by (apply drop_ge; lia).
    rewrite Hnil. split_and!; try done.
    + intros r Hr. by apply elem_of_nil in Hr.
    + intros c. by left.
    + intros r c Hr. by apply elem_of_nil in Hr.
  - destruct (lookup_lt_is_Some_2 (table_rows t) lo) as [r0 Hr0]; [lia|].
    assert (drop lo (table_rows t) = r0 :: drop (S lo) (table_rows t)) as Hdrop
      by (by apply drop_S).
    assert (r0 ∉ drop (S lo) (table_rows t)) as Hr0_notin.
    { intros Hin. apply list_elem_of_lookup in Hin as [j Hj].
      rewrite lookup_drop in Hj.
      pose proof (NoDup_lookup _ _ _ _ Hnd Hr0 Hj). lia. }
    assert (deletable t idx r0) as Hidx0.
    { apply Hidx. rewrite Hdrop. left. }
    cbn [for_loop]. unfold bind at 1.
    rewrite (row_delete_eq t lo r0 idx Hr0 Hidx0).
    set (pos0 := position (pred (length (cells t r0))) idx).
    destruct (without_cell_frame t r0 pos0)
      as (Hs1 & Hrows1 & Hnext1 & Hel1 & Hpar1 & Hgone1).
    set (t1 := without_cell r0 pos0 t) in *.
    assert (∀ r, r ≠ r0 → cells t1 r = cells t r) as Hother1.
    { intros r Hne. subst t1. rewrite cells_without_cell.
      by rewrite decide_False. }
    destruct (IH (S lo) t1) as
      (t' & Hrun & Hsame & Hrows & Hnext & Hel & Hdel & Hother & Hpar & Hgone).
    { rewrite Hrows1. lia. }
    { by rewrite Hrows1. }
    { intros r Hr. rewrite Hrows1 in Hr. unfold deletable.
      rewrite Hother1 by (intros ->; done).
      apply Hidx. rewrite Hdrop. by right. }
    rewrite Hrows1 in *.
    exists t'. split; [exact Hrun|].
    destruct Hs1 as (?&?&?&?&?&?&?), Hsame as (?&?&?&?&?&?&?).
    unfold same_controller.
    split_and!; try congruence.
    + intros r Hr. rewrite Hdrop in Hr. apply elem_of_cons in Hr as [->|Hr].
      * rewrite Hother by done. subst t1. rewrite cells_without_cell.
        by rewrite decide_True.
      * rewrite Hdel by done. rewrite Hother1; [done|]. by intros ->.
    + intros r Hr. rewrite Hdrop in Hr. apply not_elem_of_cons in Hr as [Hne Hr].
      rewrite Hother by done. by apply Hother1.
    + intros c. destruct (Hpar c) as [->| ->]; [apply Hpar1 | by right].
    + intros r c Hr Hc. rewrite Hdrop in Hr. apply elem_of_cons in Hr as [->|Hr].
      * destruct (Hpar c) as [->| ->]; [|done]. by apply Hgone1.
      * apply (Hgone r c Hr). rewrite Hother1; [done|]. by intros ->.
Qed.

Lemma deleteColumn_spec (t : Table) (c : nat) :
  selectedCell t = Some c →
  NoDup (table_rows t) →
  (∀ r, r ∈ table_rows t → deletable t (cellIndex t c) r) →
  ∃ t',
    deleteColumn t = (t', Normal tt) ∧
    (readOnly t' = readOnly t ∧
     _numberOfColumns t' = _numberOfColumns t - 1 ∧
     _numberOfRows t' = _numberOfRows t ∧
     _selectedCell t' = _selectedCell t ∧
     globalThis t' = globalThis t ∧
     notifications t' = notifications t ∧
     reported t' = reported t) ∧
    table_rows t' = table_rows t ∧
    next_node t' = next_node t ∧
    td_element t' = td_element t ∧
    (∀ r, r ∈ table_rows t →
       cells t' r
       = delete (position (pred (length (cells t r))) (cellIndex t c))
                (cells t r)) ∧
    (∀ r, r ∉ table_rows t → cells t' r = cells t r) ∧
    (∀ c', td_parent t' !! c' = td_parent t !! c' ∨ td_parent t' !! c' = None) ∧
    (∀ r c', r ∈ table_rows t →
       (cells t r !! position (pred (length (cells t r))) (cellIndex t c))%stdpp
       = Some c' →
       td_parent t' !! c' = None).
Proof.
  intros Hsel Hnd Hidx.
  unfold deleteColumn, bind at 1, get. rewrite Hsel.
  unfold bind at 1, get, bind at 1, modify, bind at 1.
  set (t1 := set_numberOfColumns _ t).
  destruct (deleteColumn_loop_spec (cellIndex t c)
              (length (table_rows t1)) 0%nat t1)
    as (t' & Hrun & Hsame & Hrows & Hnext & Hel & Hdel & Hother & Hpar & Hgone).
  { done. }
  { done. }
  { intros r Hr. rewrite drop_0 in Hr. by apply Hidx. }
  exists t'. split; [exact Hrun|].
  unfold same_controller in Hsame. subst t1. simpl in *.
  rewrite drop_0 in *.
  split_and!; try tauto; try congruence.
Qed.

Lemma uniform_Forall (t : Table) :
  uniform t ↔
  Forall (λ r, Z.of_nat (length (cells t r)) = _numberOfColumns t)
         (table_rows t).
Proof. unfold uniform. by rewrite Forall_forall. Qed.

Lemma delete_last {A} (l : list A) :
  delete (pred (length l)) l = take (pred (length l)) l.
Proof.
  rewrite delete_take_drop.
  destruct l as [|x l]; [done|].
  cbn [length pred]. by rewrite drop_ge, app_nil_r by (simpl; lia).
Qed.

(** X6. With the selected cell in a row of a grid whose rows all have
    [_numberOfColumns] cells, [deleteColumn] returns normally, removes from
    every row the cell at the index of the selected cell, subtracts one from
    [_numberOfColumns] and leaves the grid uniform.  It does not clear the
    selection: [selectedCell] still is the removed cell, which is in no row
    any more ([cellIndex] is [-1], [selectedRow] is [null]). *)
Theorem deleteColumn_removes_the_selected_column (t : Table) (c r : nat) :
  wf t → uniform t → selection_in_grid t c r →
  ∃ (t' : Table) (k : nat),
    cellIndex t c = Z.of_nat k ∧
    deleteColumn t = (t', Normal tt) ∧
    _numberOfColumns t' = _numberOfColumns t - 1 ∧
    table_rows t' = table_rows t ∧
    (∀ r', r' ∈ table_rows t → cells t' r' = delete k (cells t r')) ∧
    uniform t' ∧
    selectedCell t' = Some c ∧
    selectedRow t' = None ∧
    cellIndex t' c = -1.
Proof.
  intros Hwf Huni (Hsel & Hpar & Hr & Hc).
  destruct (index_of_elem c (cells t r) Hc) as [k Hk].
  destruct (index_of_Some _ _ _ Hk) as [Hlook Hlt].
  assert (cellIndex t c = Z.of_nat k) as Hidx
    by (unfold cellIndex; rewrite Hpar, Hk; done).
  assert (∀ r', r' ∈ table_rows t → (k < length (cells t r'))%nat) as Hlen.
  { intros r' Hr'. pose proof (Huni r Hr). pose proof (Huni r' Hr'). lia. }
  assert (∀ n, position n (Z.of_nat k) = k) as Hpos.
  { intros n. unfold position. rewrite decide_False by lia. apply Nat2Z.id. }
  destruct (deleteColumn_spec t c Hsel (proj1 Hwf))
    as (t' & Hrun & Hsame & Hrows & _ & _ & Hdel & _ & _ & Hgone).
  { intros r' Hr'. right. rewrite Hidx. specialize (Hlen r' Hr'). lia. }
  rewrite Hidx in Hdel, Hgone.
  destruct Hsame as (_ & Hcols & _ & Hs & _).
  assert (td_parent t' !! c = None) as Hdetached.
  { apply (Hgone r c Hr). by rewrite Hpos. }
  exists t', k. split_and!; try done.
  - intros r' Hr'. rewrite (Hdel r' Hr'). by rewrite Hpos.
  - intros r' Hr'. rewrite Hrows in Hr'.
    rewrite (Hdel r' Hr'), Hpos, Hcols, <- (Huni r' Hr').
    rewrite length_delete by (apply lookup_lt_is_Some_2; by apply Hlen).
    specialize (Hlen r' Hr'). lia.
  - unfold selectedCell in *. congruence.
  - unfold selectedRow, selectedCell, closest_tr. rewrite Hs.
    unfold selectedCell in Hsel. by rewrite Hsel.
  - unfold cellIndex. by rewrite Hdetached.
Qed.

Lemma deleteColumn_removes_the_selected_column_witness :
  ∃ t', deleteColumn grid_2x2_focused = (t', Normal tt) ∧
        _numberOfColumns t' = 1 ∧ selectedRow t' = None.
Proof.
  destruct (deleteColumn_removes_the_selected_column grid_2x2_focused 2 1)
    as (t' & k & _ & Hrun & Hcols & _ & _ & _ & _ & Hrow & _).
  - apply (bool_decide_unpack _). vm_compute. reflexivity.
  - apply uniform_Forall. apply (bool_decide_unpack _). vm_compute. reflexivity.
  - split_and!.
    + reflexivity.
    + vm_compute. reflexivity.
    + apply (bool_decide_unpack _). vm_compute. reflexivity.
    + apply (bool_decide_unpack _). vm_compute. reflexivity.
  - exists t'. split_and!; [exact Hrun | | exact Hrow].
    rewrite Hcols. reflexivity.
Defined.

(** X7. With a selected cell that is in no row (the state [deleteColumn] itself
    leaves behind), [cellIndex] is [-1]: another [deleteColumn] does not
    throw, removes the last cell of every row that has one and still
    subtracts one from [_numberOfColumns], also when the rows are empty. *)
Theorem deleteColumn_again_removes_the_last_column (t : Table) (c : nat) :
  wf t → selectedCell t = Some c → td_parent t !! c = None →
  ∃ t',
    deleteColumn t = (t', Normal tt) ∧
    _numberOfColumns t' = _numberOfColumns t - 1 ∧
    table_rows t' = table_rows t ∧
    (∀ r, r ∈ table_rows t →
          cells t' r = take (pred (length (cells t r))) (cells t r)).
Proof.
  intros Hwf Hsel Hpar.
  assert (cellIndex t c = -1) as Hidx by (unfold cellIndex; by rewrite Hpar).
  destruct (deleteColumn_spec t c Hsel (proj1 Hwf))
    as (t' & Hrun & Hsame & Hrows & _ & _ & Hdel & _).
  { intros r _. left. done. }
  exists t'. split_and!; try done.
  - apply Hsame.
  - intros r Hr. rewrite (Hdel r Hr), Hidx.
    unfold position. rewrite decide_True by done. apply delete_last.
Qed.

Lemma deleteColumn_again_witness :
  ∃ t', deleteColumn grid_1x1_columns_deleted = (t', Normal tt) ∧
        _numberOfColumns t' = -2.
Proof.
  destruct (deleteColumn_again_removes_the_last_column
              grid_1x1_columns_deleted 1)
    as (t' & Hrun & Hcols & _).
  - apply (bool_decide_unpack _). vm_compute. reflexivity.
  - reflexivity.
  - vm_compute. reflexivity.
  - exists t'. split; [exact Hrun|]. rewrite Hcols. reflexivity.
Defined.

(** ** Indexes out of range *)

Lemma insertCell_throws (t : Table) (row : nat) (idx : Z) :
  Z.of_nat (length (cells t row)) < idx →
  HTMLTableRowElement_insertCell row idx t = (t, Throw IndexSizeError).
Proof.
  intros Hidx. unfold HTMLTableRowElement_insertCell.
  by rewrite decide_True by lia.
Qed.

Lemma insertColumn_loop_throws (idx : Z) (k : nat) : ∀ (lo : nat) (t : Table),
  (lo + k = length (table_rows t))%nat →
  NoDup (table_rows t) → -1 ≤ idx →
  (∃ r, r ∈ drop lo (table_rows t) ∧ Z.of_nat (length (cells t r)) < idx) →
  ∃ t',
    for_loop k lo (λ i, row <- rows_item i ;;
                        cell <- HTMLTableRowElement_insertCell row idx ;;
                        _fillCell cell) t = (t', Throw IndexSizeError) ∧
    same_controller t t' ∧ table_rows t' = table_rows t.
Proof.
  induction k as [|k IH]; intros lo t Hlen Hnd Hlo (r & Hr & Hshort).
  - rewrite drop_ge in Hr by lia. by apply elem_of_nil in Hr.
  - destruct (lookup_lt_is_Some_2 (table_rows t) lo) as [r0 Hr0]; [lia|].
    assert (drop lo (table_rows t) = r0 :: drop (S lo) (table_rows t)) as Hdrop
      by (by apply drop_S).
    cbn [for_loop]. unfold bind at 1.
    destruct (decide (Z.of_nat (length (cells t r0)) < idx)) as [Hbad|Hok].
    + exists t. unfold bind at 1, rows_item. rewrite Hr0.
      unfold bind at 1. rewrite insertCell_throws by done.
      by split_and!.
    + rewrite (row_fill_eq t lo r0 idx Hr0) by lia.
      set (t1 := with_new_cell r0 _ t).
      rewrite Hdrop in Hr. apply elem_of_cons in Hr as [->|Hr]; [lia|].
      assert (r ≠ r0) as Hne.
      { intros ->. apply list_elem_of_lookup in Hr as [j Hj].
        rewrite lookup_drop in Hj.
        pose proof (NoDup_lookup _ _ _ _ Hnd Hr0 Hj). lia. }
      destruct (IH (S lo) t1) as (t' & Hrun & Hsame & Hrows).
      { subst t1. simpl. lia. }
      { done. }
      { done. }
      { exists r. split; [done|]. subst t1.
        by rewrite cells_with_new_cell, decide_False. }
      exists t'. split; [exact Hrun|].
      unfold same_controller in *. subst t1. simpl in *.
      split_and!; try tauto; congruence.
Qed.

(** X8. When the insertion index exceeds the number of cells of some row of the
    grid, which a selection outside the grid can cause, [insertColumn]
    throws [IndexSizeError] with [_numberOfColumns] already incremented. *)
Theorem insertColumn_throws_when_a_row_is_short
    (direction : option Z) (t : Table) :
  wf t →
  (∃ r, r ∈ table_rows t ∧
        Z.of_nat (length (cells t r)) < insertColumn_index direction t) →
  ∃ t',
    insertColumn direction t = (t', Throw IndexSizeError) ∧
    _numberOfColumns t' = _numberOfColumns t + 1 ∧
    table_rows t' = table_rows t ∧
    _selectedCell t' = _selectedCell t.
Proof.
  intros Hwf Hshort.
  unfold insertColumn, bind at 1, get.
  fold (insertColumn_index direction t).
  unfold bind at 1, modify. unfold bind at 1, get.
  set (t1 := set_numberOfColumns _ t).
  destruct (insertColumn_loop_throws (insertColumn_index direction t)
              (length (table_rows t1)) 0%nat t1)
    as (t' & Hrun & Hsame & Hrows).
  - done.
  - apply Hwf.
  - destruct Hshort as (r & _ & H). lia.
  - by rewrite drop_0.
  - exists t'. split; [exact Hrun|].
    unfold same_controller in Hsame. subst t1. simpl in *.
    split_and!; tauto.
Qed.

Lemma insertColumn_throws_witness :
  ∃ t', insertColumn (Some 1) grid_2x2_row_and_column_deleted
        = (t', Throw IndexSizeError) ∧
        _numberOfColumns t' = 2.
Proof.
  destruct (insertColumn_throws_when_a_row_is_short
              (Some 1) grid_2x2_row_and_column_deleted)
    as (t' & Hrun & Hcols & _).
  - apply (bool_decide_unpack _). vm_compute. reflexivity.
  - exists 0%nat. split.
    + apply (bool_decide_unpack _). vm_compute. reflexivity.
    + vm_compute. reflexivity.
  - exists t'. split; [exact Hrun|]. rewrite Hcols. reflexivity.
Defined.

Lemma deleteColumn_loop_throws (idx : Z) (k : nat) : ∀ (lo : nat) (t : Table),
  (lo + k = length (table_rows t))%nat →
  NoDup (table_rows t) → 0 ≤ idx →
  (∃ r, r ∈ drop lo (table_rows t) ∧ Z.of_nat (length (cells t r)) ≤ idx) →
  ∃ t',
    for_loop k lo (λ i, row <- rows_item i ;;
                        HTMLTableRowElement_deleteCell row idx) t
    = (t', Throw IndexSizeError) ∧
    same_controller t t' ∧ table_rows t' = table_rows t.
Proof.
  induction k as [|k IH]; intros lo t Hlen Hnd Hlo (r & Hr & Hshort).
  - rewrite drop_ge in Hr by lia. by apply elem_of_nil in Hr.
  - destruct (lookup_lt_is_Some_2 (table_rows t) lo) as [r0 Hr0]; [lia|].
    assert (drop lo (table_rows t) = r0 :: drop (S lo) (table_rows t)) as Hdrop
      by (by apply drop_S).
    cbn [for_loop]. unfold bind at 1.
    destruct (decide (Z.of_nat (length (cells t r0)) ≤ idx)) as [Hbad|Hok].
    + exists t. unfold bind at 1, rows_item. rewrite Hr0.
      rewrite deleteCell_throws by done.
      by split_and!.
    + rewrite (row_delete_eq t lo r0 idx Hr0) by (right; lia).
      set (pos0 := position _ idx).
      destruct (without_cell_frame t r0 pos0) as (Hs1 & Hrows1 & _).
      set (t1 := without_cell r0 pos0 t) in *.
      rewrite Hdrop in Hr. apply elem_of_cons in Hr as [->|Hr]; [lia|].
      assert (r ≠ r0) as Hne.
      { intros ->. apply list_elem_of_lookup in Hr as [j Hj].
        rewrite lookup_drop in Hj.
        pose proof (NoDup_lookup _ _ _ _ Hnd Hr0 Hj). lia. }
      destruct (IH (S lo) t1) as (t' & Hrun & Hsame & Hrows).
      { rewrite Hrows1. lia. }
      { by rewrite Hrows1. }
      { done. }
      { exists r. rewrite Hrows1. split; [done|]. subst t1.
        by rewrite cells_without_cell, decide_False. }
      exists t'. split; [exact Hrun|].
      destruct Hs1 as (?&?&?&?&?&?&?), Hsame as (?&?&?&?&?&?&?).
      unfold same_controller. split_and!; congruence.
Qed.

(** X9. When the selected cell has an index that some row of the grid does not
    reach, which happens when the cell sits in a row that was deleted,
    [deleteColumn] throws [IndexSizeError] with [_numberOfColumns] already
    decremented. *)
Theorem deleteColumn_throws_when_a_row_is_short (t : Table) (c : nat) :
  wf t → selectedCell t = Some c →
  (∃ r, r ∈ table_rows t ∧
        0 ≤ cellIndex t c ∧ Z.of_nat (length (cells t r)) ≤ cellIndex t c) →
  ∃ t',
    deleteColumn t = (t', Throw IndexSizeError) ∧
    _numberOfColumns t' = _numberOfColumns t - 1 ∧
    table_rows t' = table_rows t ∧
    _selectedCell t' = _selectedCell t.
Proof.
  intros Hwf Hsel (r & Hr & Hlo & Hshort).
  unfold deleteColumn, bind at 1, get. rewrite Hsel.
  unfold bind at 1, get, bind at 1, modify, bind at 1.
  set (t1 := set_numberOfColumns _ t).
  destruct (deleteColumn_loop_throws (cellIndex t c)
              (length (table_rows t1)) 0%nat t1)
    as (t' & Hrun & Hsame & Hrows).
  - done.
  - apply Hwf.
  - done.
  - exists r. by rewrite drop_0.
  - exists t'. split; [exact Hrun|].
    unfold same_controller in Hsame. subst t1. simpl in *.
    split_and!; tauto.
Qed.

Lemma deleteColumn_throws_witness :
  ∃ t', deleteColumn grid_2x2_row_and_column_deleted
        = (t', Throw IndexSizeError) ∧
        _numberOfColumns t' = 0.
Proof.
  destruct (deleteColumn_throws_when_a_row_is_short
              grid_2x2_row_and_column_deleted 2)
    as (t' & Hrun & Hcols & _).
  - apply (bool_decide_unpack _). vm_compute. reflexivity.
  - reflexivity.
  - exists 0%nat. split_and!.
    + apply (bool_decide_unpack _). vm_compute. reflexivity.
    + vm_compute. discriminate.
    + vm_compute. discriminate.
  - exists t'. split; [exact Hrun|]. rewrite Hcols. reflexivity.
Defined.

(** ** The selection after a row was deleted *)

(** X10. [deleteRow] does not clear the selection.  After the selected row was
    deleted, [selectedCell] is the same cell, [selectedRow] still answers
    the deleted row with its cells, and that row is no longer in the grid:
    its [rowIndex] is [-1]. *)
Theorem deleteRow_leaves_the_selection (index : option Z) (t : Table) (r : nat) :
  wf t → selectedRow t = Some r → r ∈ table_rows t →
  let t' := fst (deleteRow index t) in
  selectedCell t' = selectedCell t ∧
  selectedRow t' = Some r ∧
  cells t' r = cells t r ∧
  (r ∉ table_rows t') ∧
  rowIndex t' r = -1 ∧
  length (table_rows t') = pred (length (table_rows t)).
Proof.
  intros Hwf Hsel Hin t'. subst t'.
  destruct (index_of_elem r (table_rows t) Hin) as [i Hi].
  destruct (index_of_Some _ _ _ Hi) as [Hlook Hlt].
  assert (rowIndex t r = Z.of_nat i) as Hridx
    by (unfold rowIndex; by rewrite Hi).
  rewrite (deleteRow_selected index t r Hsel), Hridx. cbn [fst].
  unfold position. rewrite decide_False by lia. rewrite Nat2Z.id.
  assert (r ∉ delete i (table_rows t)) as Hout
    by (apply NoDup_not_elem_of_delete; [apply Hwf | done]).
  set (t' := set_numberOfRows _ _).
  assert (table_rows t' = delete i (table_rows t)) as Hrows by done.
  split_and!.
  - reflexivity.
  - exact Hsel.
  - reflexivity.
  - by rewrite Hrows.
  - unfold rowIndex. rewrite Hrows. apply index_of_None in Hout.
    by rewrite Hout.
  - rewrite Hrows, length_delete by (by eexists). lia.
Qed.

Lemma deleteRow_leaves_the_selection_witness :
  selectedRow (fst (deleteRow None grid_2x2_focused)) = Some 1%nat ∧
  rowIndex (fst (deleteRow None grid_2x2_focused)) 1 = -1.
Proof.
  destruct (deleteRow_leaves_the_selection None grid_2x2_focused 1)
    as (_ & H1 & _ & _ & H2 & _).
  - apply (bool_decide_unpack _). vm_compute. reflexivity.
  - reflexivity.
  - apply (bool_decide_unpack _). vm_compute. reflexivity.
  - split; [exact H1 | exact H2].
Defined.

(** ** Where the selection is after an insertion *)

Lemma insert_at_0 {A} (x : A) (l : list A) : insert_at 0 x l = x :: l.
Proof. unfold insert_at. by rewrite take_0, drop_0. Qed.

Lemma insert_at_S {A} (p : nat) (x y : A) (l : list A) :
  insert_at (S p) x (y :: l) = y :: insert_at p x l.
Proof. done. Qed.

Lemma index_of_insert_at_other (c x : nat) (l : list nat) : ∀ (p k : nat),
  c ≠ x → index_of c l = Some k →
  index_of c (insert_at p x l) = Some (if decide (p ≤ k)%nat then S k else k).
Proof.
  induction l as [|y l IH]; intros p k Hne Hk; [done|].
  destruct p as [|p].
  - rewrite insert_at_0.
    change (index_of c (x :: y :: l))
      with (if decide (c = x) then Some 0%nat else S <$> index_of c (y :: l)).
    rewrite decide_False by done.
    rewrite Hk. simpl. repeat case_decide; first [done | lia].
  - rewrite insert_at_S. cbn [index_of] in *.
    destruct (decide (c = y)) as [->|Hy].
    + injection Hk as <-. repeat case_decide; first [done | lia].
    + destruct (index_of c l) as [k'|] eqn:E; [|done].
      simpl in Hk. injection Hk as <-.
      rewrite (IH p k' Hne eq_refl). simpl.
      repeat case_decide; try lia; done.
Qed.

(** X11. Insertion is relative to the selection.  With the selected cell in a row
    of a uniform grid, [insertColumn] before (direction 0) moves the selected
    cell one column to the right and [insertColumn] after (direction 1)
    leaves its index; in the same way [insertRow] before moves the selected
    row one down and [insertRow] after leaves its index.  The selection
    itself is never changed. *)
Theorem insertion_is_relative_to_the_selection
    (direction : option Z) (t : Table) (c r : nat) :
  wf t → uniform t → selection_in_grid t c r →
  let d := clamp (default 0 direction) in
  (let t' := fst (insertColumn direction t) in
   selectedCell t' = Some c ∧
   cellIndex t' c = cellIndex t c + (1 - d) ∧
   ∃ new, (cells t' r !! Z.to_nat (cellIndex t c + d))%stdpp = Some new ∧
          (new ∉ cells t r)) ∧
  (let t' := fst (insertRow direction t) in
   selectedCell t' = Some c ∧
   rowIndex t' r = rowIndex t r + (1 - d) ∧
   rowIndex t' (next_node t) = rowIndex t r + d).
Proof.
  intros Hwf Huni (Hsel & Hpar & Hr & Hc) d.
  pose proof (clamp_cases (default 0 direction)) as Hd. fold d in Hd.
  assert (c < next_node t)%nat as Hcold by (by eapply wf_cells).
  destruct (index_of_elem c (cells t r) Hc) as [k Hk].
  destruct (index_of_Some _ _ _ Hk) as [_ Hklt].
  assert (cellIndex t c = Z.of_nat k) as Hidx
    by (unfold cellIndex; rewrite Hpar, Hk; done).
  destruct (index_of_elem r (table_rows t) Hr) as [i Hi].
  destruct (index_of_Some _ _ _ Hi) as [Hilook _].
  assert (rowIndex t r = Z.of_nat i) as Hridx
    by (unfold rowIndex; rewrite Hi; done).
  assert (selectedRow t = Some r) as Hsr.
  { unfold selectedRow. rewrite Hsel. exact Hpar. }
  split.
  - assert (insertColumn_index direction t = Z.of_nat k + d) as Hins
      by (unfold insertColumn_index; by rewrite Hsel, Hidx).
    destruct (insertColumn_spec direction t (proj1 Hwf))
      as (t' & Hrun & Hsame & _ & _ & Hnew & _ & Hold).
    { intros r' Hr'. rewrite Hins.
      pose proof (Huni r Hr). pose proof (Huni r' Hr'). lia. }
    rewrite Hrun. cbn [fst]. cbv zeta.
    destruct (Hnew i r Hilook) as (Hcells & _).
    rewrite Hins in Hcells.
    assert (position (length (cells t r)) (Z.of_nat k + d)
            = Z.to_nat (Z.of_nat k + d)) as Hpos
      by (unfold position; by rewrite decide_False by lia).
    rewrite Hpos in Hcells.
    assert ((next_node t + i)%nat ∉ cells t r) as Hfresh.
    { intros Hin. apply (wf_cells _ _ _ Hwf) in Hin. lia. }
    split_and!.
    + unfold selectedCell in *. destruct Hsame as (_ & _ & _ & -> & _). done.
    + rewrite Hidx. unfold cellIndex.
      destruct (Hold c Hcold) as [_ ->]. rewrite Hpar, Hcells.
      rewrite (index_of_insert_at_other c _ _ _ k); [|lia|done].
      cbn [index_or_minus_one]. case_decide; lia.
    + exists (next_node t + i)%nat. split; [|done].
      rewrite Hidx, Hcells. unfold insert_at.
      rewrite lookup_app_r by (rewrite length_take; lia).
      rewrite length_take.
      replace (Z.to_nat (Z.of_nat k + d)
               - Z.to_nat (Z.of_nat k + d) `min` length (cells t r))%nat
        with 0%nat by lia.
      done.
  - destruct (insertRow_fresh direction t Hwf) as [Hfresh Hnewidx].
    destruct (insertRow_spec direction t)
      as (t' & Hrun & Hsame & _ & Hrows & _).
    rewrite Hrun in *. cbn [fst] in *. cbv zeta.
    pose proof (selectedRow_attached_position direction t r Hsr Hr) as Hpos.
    fold d in Hpos.
    split_and!.
    + unfold selectedCell in *. destruct Hsame as (_ & _ & _ & -> & _). done.
    + unfold rowIndex at 1. rewrite Hrows.
      rewrite (index_of_insert_at_other r _ _ _ i); [|by intros ->|done].
      cbn [index_or_minus_one]. rewrite Hridx in *.
      case_decide; lia.
    + rewrite Hnewidx. lia.
Qed.

Lemma insertion_is_relative_witness :
  cellIndex (fst (insertColumn None grid_2x2_focused)) 2 = 2 ∧
  rowIndex (fst (insertRow (Some 1) grid_2x2_focused)) 1 = 0.
Proof.
  assert (wf grid_2x2_focused) as Hwf
    by (apply (bool_decide_unpack _); vm_compute; reflexivity).
  assert (uniform grid_2x2_focused) as Huni
    by (apply uniform_Forall, (bool_decide_unpack _); vm_compute; reflexivity).
  assert (selection_in_grid grid_2x2_focused 2 1) as Hsel.
  { split_and!.
    - reflexivity.
    - vm_compute. reflexivity.
    - apply (bool_decide_unpack _). vm_compute. reflexivity.
    - apply (bool_decide_unpack _). vm_compute. reflexivity. }
  split.
  - destruct (insertion_is_relative_to_the_selection
                None grid_2x2_focused 2 1 Hwf Huni Hsel)
      as ((_ & H & _) & _).
    rewrite H. vm_compute. reflexivity.
  - destruct (insertion_is_relative_to_the_selection
                (Some 1) grid_2x2_focused 2 1 Hwf Huni Hsel)
      as (_ & (_ & H & _)).
    rewrite H. vm_compute. reflexivity.
Defined.

(** ** Assigning to [selectedCell] *)




(** ** Ctrl+Enter on a page that binds [side] *)

(** X13. When the global object does bind [side], Ctrl+Enter inside the grid of a
    table with at least one column hands exactly one bubbling
    [mouseInActivatingArea] notification to the host, at the target of the
    key press and with that binding as its [side]; nothing is thrown. *)
Theorem ctrl_enter_notifies_when_side_is_bound
    (ev : Event) (t : Table) (v : string) :
  key ev = "Enter"%string → ctrlKey ev = true →
  inside_table t (target ev) = true →
  1 ≤ _numberOfColumns t →
  globalThis t !! "side"%string = Some v →
  let t' := dispatchEvent keydown ev t in
  notifications t'
    = (notifications t ++
       [mkCustomEvent (target ev) "mouseInActivatingArea" v true])%list ∧
  reported t' = reported t ∧
  _numberOfRows t' = _numberOfRows t + 1.
Proof.
  intros Hkey Hctrl Hin Hcols Hside t'. subst t'.
  rewrite dispatch_ctrl_enter by (try done; by rewrite Hin).
  destruct (containerEnterPressed_eq (dispatch_depth 2) ev t)
    as (t1 & Hrun & ->).
  destruct (insertRow_spec (Some 1) t)
    as (t1' & Hrun' & Hsame & _ & Hrows & _ & Hcells & _ & Hnew & _).
  rewrite Hrun in Hrun'. injection Hrun' as <-.
  destruct Hsame as (Hro1 & _ & Hn & _ & Hg1 & Hn1 & Hr1).
  assert (∃ m, Z.to_nat (_numberOfColumns t) = S m) as [m Hm]
    by (exists (Z.to_nat (_numberOfColumns t - 1)); lia).
  rewrite Hm in Hcells, Hnew. rewrite Hcells. cbn [seq lookup list_lookup].
  destruct (Hnew (S (next_node t))) as [Hel Hpar]; [left|].
  rewrite (click_on_filled_cell t1 (S (next_node t)) (next_node t));
    [| by rewrite Hro1 | done | rewrite Hrows; apply elem_of_insert_at; by left].
  cbv zeta.
  destruct (readOnly t1); cbn [globalThis set__selectedCell];
    rewrite Hg1, Hside; cbn; by rewrite Hn1, Hr1, Hn.
Qed.

Lemma ctrl_enter_notifies_witness :
  let t := do_steps (grid 1 1 ++
                     [step_event focus (plain_event (InCell 1 [0; 0]%nat))])
                    (Table_new {[ "side"%string := "left"%string ]} false) in
  notifications
    (dispatchEvent keydown (ctrl_enter (InCell 1 [0; 0]%nat)) t)
  = [mkCustomEvent (InCell 1 [0; 0]%nat) "mouseInActivatingArea" "left" true].
Proof.
  cbv zeta.
  set (t := do_steps _ _).
  destruct (ctrl_enter_notifies_when_side_is_bound
              (ctrl_enter (InCell 1 [0; 0]%nat)) t "left")
    as (H & _).
  - reflexivity.
  - reflexivity.
  - vm_compute. reflexivity.
  - vm_compute. discriminate.
  - vm_compute. reflexivity.
  - rewrite H. reflexivity.
Defined.

(** ** Sessions without deletions *)

Lemma sound_ext (t t' : Table) :
  table_rows t' = table_rows t → tr_cells t' = tr_cells t →
  td_parent t' = td_parent t → next_node t' = next_node t →
  _numberOfColumns t' = _numberOfColumns t →
  _numberOfRows t' = _numberOfRows t →
  sound t → sound t'.
Proof.
  intros Hr Hc Hp Hn Hcols Hrows (Hwf & Huni & H0 & Hcnt & Hpar).
  assert (∀ r, cells t' r = cells t r) as Hcells
    by (intros r; unfold cells; by rewrite Hc).
  unfold sound, wf, uniform, rows_counted, parents_in_grid in *.
  rewrite Hr, Hc, Hp, Hn, Hcols, Hrows.
  split_and!; try tauto.
  - intros r. rewrite Hcells. apply Huni.
  - intros c r. rewrite Hcells. apply Hpar.
Qed.

Lemma fill_loop_parents (n : nat) : ∀ (lo : nat) (t : Table) (row c r : nat),
  td_parent
    (fst (for_loop n lo (λ _, cell <- HTMLTableRowElement_insertCell row (-1) ;;
                              _fillCell cell) t)) !! c = Some r →
  td_parent t !! c = Some r ∨ (r = row ∧ c ∈ seq (next_node t) n).
Proof.
  induction n as [|n IH]; intros lo t row c r; [by left|].
  cbn [for_loop]. unfold bind at 1. rewrite insert_fill_eq by lia.
  intros H. apply IH in H as [H|[-> H]].
  - simpl in H. destruct (decide (next_node t = c)) as [<-|Hne].
    + rewrite lookup_insert_eq in H. injection H as <-. right.
      split; [done|]. left.
    + rewrite lookup_insert_ne in H by done. by left.
  - right. split; [done|]. simpl in H. by right.
Qed.

Lemma insertRow_parents (d : option Z) (t : Table) (c r : nat) :
  td_parent (fst (insertRow d t)) !! c = Some r →
  td_parent t !! c = Some r ∨
  (r = next_node t ∧ c ∈ cells (fst (insertRow d t)) (next_node t)).
Proof.
  destruct (insertRow_spec d t) as (t' & Hrun & _ & _ & _ & _ & Hcells & _).
  rewrite Hrun. cbn [fst]. rewrite Hcells.
  revert Hrun. unfold insertRow, bind at 1, get, bind at 1.
  destruct (HTMLTableElement_insertRow _ t) as [t1 [row|e]] eqn:E1; [|done].
  unfold bind at 1, modify. unfold bind at 1. unfold _fillRow at 1.
  unfold bind at 1, get.
  set (t2 := set_numberOfRows _ t1).
  destruct (for_loop _ _ _ t2) as [t3 [[]|e]] eqn:E3; [|done].
  unfold ret. intros [= <- ->] H.
  pose proof (fill_loop_parents (Z.to_nat (_numberOfColumns t2)) 0 t2
                (next_node t) c r) as Hfill.
  rewrite E3 in Hfill. specialize (Hfill H).
  revert E1. unfold HTMLTableElement_insertRow. case_decide; [done|].
  intros [= <-]. subst t2. simpl in Hfill.
  destruct Hfill as [Hfill|[-> Hfill]]; [by left | by right].
Qed.

Lemma sound_insertRow (d : option Z) (t : Table) :
  sound t → sound (fst (insertRow d t)).
Proof.
  intros (Hwf & Huni & H0 & Hcnt & Hpar).
  pose proof (frame_insertRow wf d t Hwf) as Hwf'.
  destruct (insertRow_fresh d t Hwf) as [Hfresh _].
  pose proof (insertRow_parents d t) as Hparents.
  destruct (insertRow_spec d t)
    as (t' & Hrun & Hsame & _ & Hrows & _ & Hcells & Hother & _).
  rewrite Hrun in *. cbn [fst] in *.
  destruct Hsame as (_ & Hc & Hn & _).
  assert (∀ r, r ∈ table_rows t → cells t' r = cells t r) as Hold.
  { intros r Hr. apply cells_eq, Hother. by intros ->. }
  split_and!; try done.
  - intros r Hr. rewrite Hrows in Hr.
    apply elem_of_insert_at in Hr as [->|Hr].
    + rewrite Hcells, length_seq, Hc. lia.
    + rewrite Hold, Hc by done. by apply Huni.
  - lia.
  - unfold rows_counted in *. rewrite Hrows, length_insert_at, Hn. lia.
  - intros c r H. apply Hparents in H as [H|[-> H]].
    + destruct (Hpar c r H) as [Hr Hin]. split.
      * rewrite Hrows. apply elem_of_insert_at. by right.
      * by rewrite Hold.
    + split; [|done]. rewrite Hrows. apply elem_of_insert_at. by left.
Qed.

Lemma insertColumn_loop_parents (idx : Z) (k : nat) :
  ∀ (lo : nat) (t : Table) (c r : nat),
  td_parent
    (fst (for_loop k lo (λ i, row <- rows_item i ;;
                              cell <- HTMLTableRowElement_insertCell row idx ;;
                              _fillCell cell) t)) !! c = Some r →
  td_parent t !! c = Some r ∨
  (∃ j, (table_rows t !! (lo + j)%nat)%stdpp = Some r ∧
        c = (next_node t + j)%nat).
Proof.
  induction k as [|k IH]; intros lo t c r; [by left|].
  cbn [for_loop]. unfold bind at 1.
  destruct (table_rows t !! lo)%stdpp as [r0|] eqn:Hr0.
  - unfold bind at 1, rows_item at 1. rewrite Hr0.
    destruct (decide (-1 ≤ idx ≤ Z.of_nat (length (cells t r0)))) as [Hok|Hbad].
    + rewrite insert_fill_eq by done.
      intros H. apply IH in H as [H|(j & H1 & H2)].
      * simpl in H. destruct (decide (next_node t = c)) as [<-|Hne].
        -- rewrite lookup_insert_eq in H. injection H as <-. right.
           exists 0%nat. by rewrite !Nat.add_0_r.
        -- rewrite lookup_insert_ne in H by done. by left.
      * right. simpl in *. exists (S j).
        replace (lo + S j)%nat with (S (lo + j)) by lia.
        split; [done | lia].
    + unfold bind at 1, HTMLTableRowElement_insertCell at 1.
      rewrite decide_True by lia. by left.
  - unfold bind at 1, rows_item at 1. rewrite Hr0. by left.
Qed.

Lemma sound_insertColumn (d : option Z) (t : Table) :
  sound t → sound (fst (insertColumn d t)).
Proof.
  intros (Hwf & Huni & H0 & Hcnt & Hpar).
  pose proof (frame_insertColumn wf d t Hwf) as Hwf'.
  assert (∀ r, r ∈ table_rows t →
            insertColumn_index d t ≤ Z.of_nat (length (cells t r))) as Hidx.
  { intros r Hr. unfold insertColumn_index, cellIndex.
    pose proof (clamp_cases (default 0 d)).
    destruct (selectedCell t) as [c|]; [|lia].
    destruct (td_parent t !! c) as [rc|] eqn:E; [|simpl; lia].
    destruct (Hpar c rc E) as [Hrc _].
    pose proof (index_or_minus_one_range c (cells t rc)).
    pose proof (Huni r Hr). pose proof (Huni rc Hrc). lia. }
  assert (∀ c r, td_parent (fst (insertColumn d t)) !! c = Some r →
            td_parent t !! c = Some r ∨
            (∃ j, (table_rows t !! j)%stdpp = Some r ∧
                  c = (next_node t + j)%nat)) as Hparents.
  { intros c r. unfold insertColumn, bind at 1, get, bind at 1, modify.
    unfold bind at 1, get. intros H.
    by apply insertColumn_loop_parents in H. }
  destruct (insertColumn_spec d t (proj1 Hwf) Hidx)
    as (t' & Hrun & Hsame & Hrows & Hnext & Hnew & _ & Hold).
  rewrite Hrun in *. cbn [fst] in *.
  destruct Hsame as (_ & Hc & Hn & _).
  assert (∀ r, r ∈ table_rows t →
            ∃ x, cells t' r = insert_at
                   (position (length (cells t r)) (insertColumn_index d t))
                   x (cells t r)) as Hins.
  { intros r Hr. apply list_elem_of_lookup in Hr as [j Hj].
    destruct (Hnew j r Hj) as (-> & _). by eexists. }
  split_and!; try done.
  - intros r Hr. rewrite Hrows in Hr. destruct (Hins r Hr) as [x ->].
    rewrite length_insert_at, Hc, <- (Huni r Hr). lia.
  - lia.
  - unfold rows_counted in *. by rewrite Hrows, Hn.
  - intros c r H. rewrite Hrows.
    destruct (td_parent t !! c) as [r'|] eqn:E.
    + assert (c < next_node t)%nat as Hlt.
      { destruct (Hpar c r' E) as [_ Hin]. by eapply wf_cells. }
      destruct (Hold c Hlt) as [_ Heq]. rewrite Heq, E in H.
      injection H as <-. destruct (Hpar c r' E) as [Hr Hin].
      split; [done|]. destruct (Hins r' Hr) as [x ->].
      apply elem_of_insert_at. by right.
    + apply Hparents in H as [H|(j & Hj & ->)]; [congruence|].
      split; [by eapply list_elem_of_lookup_2|].
      destruct (Hnew j r Hj) as (-> & _).
      apply elem_of_insert_at. by left.
Qed.

(** The listeners change the controller only through [insertRow], the
    selection and what is handed to the host: a property that these keep is
    kept by every dispatch. *)
Section EventsKeep.
Context (P : Table → Prop).
Hypothesis keeps_insertRow : ∀ d, preserves P (insertRow d).
Hypothesis keeps_selection : ∀ c t, P t → P (set__selectedCell c t).
Hypothesis keeps_reported : ∀ l t, P t → P (set_reported l t).
Hypothesis keeps_notifications : ∀ l t, P t → P (set_notifications l t).

Lemma events_keep_call_listener nested l ev :
  (∀ ty ev t, P t → P (nested ty ev t)) →
  preserves P (call_listener nested l ev).
Proof.
  intros Hnested.
  assert (∀ n, preserves P (HTMLElement_click nested n)) as Hclick.
  { intros n. unfold HTMLElement_click. apply preserves_modify. auto. }
  assert (∀ n, preserves P (HTMLElement_focus nested n)) as Hfocus.
  { intros n t Ht. unfold HTMLElement_focus. destruct (_ && _); simpl; auto. }
  assert (∀ name, preserves P (identifier name)) as Hid.
  { intros name t Ht. unfold identifier. by destruct (_ !! _). }
  assert (∀ ce, preserves P (EventTarget_dispatchEvent ce)) as Hce.
  { intros ce. unfold EventTarget_dispatchEvent. apply preserves_modify. auto. }
  destruct l; simpl;
    unfold _focusEditField, _blurEditField, _pressedEnterInEditField,
      _clickedOnCell, _containerKeydown, _containerEnterPressed,
      Event_preventDefault;
    keeps.
Qed.

Lemma events_keep_dispatch_depth n ty ev t :
  P t → P (dispatch_depth n ty ev t).
Proof.
  revert ty ev t. induction n as [|n IH]; intros ty ev t Ht; simpl; [done|].
  unfold dispatch_step.
  assert (∀ ls t, P t → P (run_listeners (dispatch_depth n) ls ev t)) as Hrun.
  { intros ls. unfold run_listeners.
    induction ls as [|l ls IHls]; intros t0 Ht0; simpl; [done|].
    apply IHls.
    pose proof (events_keep_call_listener (dispatch_depth n) l ev IH t0 Ht0)
      as Hl.
    destruct (call_listener _ l ev t0) as [t1 [[]|e]]; simpl in *; auto. }
  repeat (match goal with
          | |- P (if ?b then _ else _) => destruct b
          | |- P (run_listeners _ _ _ _) => apply Hrun
          end; try done).
Qed.
End EventsKeep.

Lemma sound_do_step (s : Step) (t : Table) :
  no_deletion s → sound t → sound (do_step s t).
Proof.
  intros Hs Ht.
  destruct s as [[d|i|d|]|cell|ty ev]; cbn [do_step do_call no_deletion] in *;
    try done.
  - by apply sound_insertRow.
  - by apply sound_insertColumn.
  - revert Ht. apply sound_ext;
      unfold set_selectedCell, bind, get, modify, ret;
      destruct (_selectedCell t); destruct cell; reflexivity.
  - unfold dispatchEvent. apply (events_keep_dispatch_depth sound).
    + intros d t0. apply sound_insertRow.
    + intros c t0. by apply sound_ext.
    + intros l t0. by apply sound_ext.
    + intros l t0. by apply sound_ext.
    + exact Ht.
Qed.

(** X14. From a new controller, after any sequence of calls, assignments to
    [selectedCell] and events that has no call of [deleteRow] or
    [deleteColumn], every row of the grid has exactly [_numberOfColumns]
    cells and [_numberOfRows] is the number of rows, whatever was selected on
    the way. *)
Theorem grid_is_uniform_without_deletions
    (globals : gmap string string) (ro : bool) (steps : list Step) :
  Forall no_deletion steps →
  uniform (do_steps steps (Table_new globals ro)) ∧
  rows_counted (do_steps steps (Table_new globals ro)).
Proof.
  intros Hsteps.
  cut (sound (do_steps steps (Table_new globals ro))).
  { intros H. split; apply H. }
  assert (sound (Table_new globals ro)) as H0.
  { split_and!;
      first [ apply wf_Table_new
            | done
            | intros r Hr; by apply elem_of_nil in Hr ]. }
  revert H0. unfold do_steps. generalize (Table_new globals ro).
  induction Hsteps as [|s steps Hs _ IH]; intros t Ht; simpl; [done|].
  apply IH. by apply sound_do_step.
Qed.

Lemma grid_is_uniform_witness :
  let t := do_steps
             [step_call (call_insertRow None);
              step_call (call_insertColumn (Some 1));
              step_event click (plain_event (InCell 1 []));
              step_call (call_insertColumn (Some 1));
              step_event keydown (ctrl_enter (InCell 1 [0; 0]%nat));
              step_set_selectedCell (Some 1%nat);
              step_call (call_insertRow None)]
             (Table_new ∅ false) in
  uniform t ∧ rows_counted t.
Proof.
  cbv zeta. apply grid_is_uniform_without_deletions.
  repeat (constructor; [exact I|]). constructor.
Defined.

(** ** Ctrl+Enter on any table *)

(** X15. Nothing guards the listener of Ctrl+Enter: on every table, read-only or
    not, with or without columns, a key press with Ctrl+Enter that reaches
    the wrapper puts a new row into the grid, where [insertRow(1)] puts it,
    and adds one to [_numberOfRows]. *)
Theorem ctrl_enter_always_inserts_a_row (ev : Event) (t : Table) :
  key ev = "Enter"%string → ctrlKey ev = true →
  inside_table t (target ev) || bool_decide (target ev = WrapperEl) = true →
  let t' := dispatchEvent keydown ev t in
  table_rows t'
    = insert_at (insertRow_position (Some 1) t) (next_node t) (table_rows t) ∧
  _numberOfRows t' = _numberOfRows t + 1 ∧
  _numberOfColumns t' = _numberOfColumns t ∧
  readOnly t' = readOnly t.
Proof.
  intros Hkey Hctrl Hin t'. subst t'.
  rewrite dispatch_ctrl_enter by done.
  destruct (containerEnterPressed_eq (dispatch_depth 2) ev t)
    as (t1 & Hrun & ->).
  destruct (insertRow_spec (Some 1) t)
    as (t1' & Hrun' & Hsame & _ & Hrows & _ & Hcells & _ & Hnew & _).
  rewrite Hrun in Hrun'. injection Hrun' as <-.
  destruct Hsame as (Hro1 & Hc1 & Hn1 & _).
  rewrite Hcells.
  destruct (Z.to_nat (_numberOfColumns t)) as [|m] eqn:Hm;
    cbn [seq lookup list_lookup].
  - by split_and!.
  - destruct (Hnew (S (next_node t))) as [Hel Hpar]; [left|].
    rewrite (click_on_filled_cell t1 (S (next_node t)) (next_node t));
      [| by rewrite Hro1 | done
       | rewrite Hrows; apply elem_of_insert_at; by left].
    cbv zeta.
    destruct (readOnly t1) eqn:Hro;
      cbn [globalThis set__selectedCell];
      destruct (globalThis t1 !! "side"%string);
      cbn; rewrite ?Hro; by split_and!.
Qed.

Lemma ctrl_enter_always_inserts_witness :
  let t := do_steps (grid 1 1) (Table_new ∅ true) in
  _numberOfRows (dispatchEvent keydown (ctrl_enter (InCell 1 [0; 0]%nat)) t)
  = 2.
Proof.
  cbv zeta. set (t := do_steps _ _).
  destruct (ctrl_enter_always_inserts_a_row
              (ctrl_enter (InCell 1 [0; 0]%nat)) t) as (_ & H & _).
  - reflexivity.
  - reflexivity.
  - vm_compute. reflexivity.
  - rewrite H. vm_compute. reflexivity.
Defined.
